(** * Workline search: article cache, relevance scorer and result merge

    A shallow embedding of the search core of the Workline Slack app
    (the Google-enabled variant and the cache-only variant) and the
    properties of its specification.

    Conventions of the embedding.
    - A JavaScript string is a [string]: a sequence of code units in the
      range U+0000..U+00FF.
    - A [Map] is an association list in insertion order without repeated keys.
    - A JavaScript number holding a score or a time stamp is a [Z].
    - The network and the clock are an explicit [World] passed to each
      operation; an operation that mutates the module-level variables
      [articleCache] and [lastCacheTime] takes and returns a [State]. *)

From Stdlib Require Import String Ascii List ZArith Lia Bool Arith Permutation.
From Stdlib Require DecimalString DecimalNat.
Import ListNotations.

Local Open Scope string_scope.
Local Open Scope list_scope.
Local Open Scope nat_scope.

(* ================================================================== *)
(** * Host string primitives *)

Module JsString.

Definition unit_code (c : ascii) : nat := nat_of_ascii c.

(** [String.prototype.toLowerCase] on one code unit of the Latin-1 range:
    A..Z and the capital letters U+00C0..U+00DE (without the
    multiplication sign U+00D7) move up by 32. *)
Definition lower_unit (c : ascii) : ascii :=
  let n := unit_code c in
  if ((65 <=? n) && (n <=? 90)) ||
     ((192 <=? n) && (n <=? 222) && negb (n =? 215))
  then ascii_of_nat (n + 32) else c.

Fixpoint toLowerCase (s : string) : string :=
  match s with
  | EmptyString => EmptyString
  | String c s' => String (lower_unit c) (toLowerCase s')
  end.

(** White space and line terminators, as [trim] and the class [\s] see
    them in this range: TAB, LF, VT, FF, CR, SPACE, NBSP. *)
Definition is_space (c : ascii) : bool :=
  let n := unit_code c in
  ((9 <=? n) && (n <=? 13)) || (n =? 32) || (n =? 160).

(** Line terminators, which the pattern [.] does not match. *)
Definition is_line_terminator (c : ascii) : bool :=
  let n := unit_code c in (n =? 10) || (n =? 13).

Fixpoint trimStart (s : string) : string :=
  match s with
  | EmptyString => EmptyString
  | String c s' => if is_space c then trimStart s' else s
  end.

(** [trimEnd]: a code unit is dropped when it is white space and all
    that follows it has been dropped. *)
Fixpoint trimEnd (s : string) : string :=
  match s with
  | EmptyString => EmptyString
  | String c s' =>
      match trimEnd s' with
      | EmptyString => if is_space c then EmptyString else String c EmptyString
      | t => String c t
      end
  end.

Definition trim (s : string) : string := trimEnd (trimStart s).

(** [s.startsWith(t)] *)
Definition startsWith (s t : string) : bool := prefix t s.

(** [s.includes(t)] *)
Fixpoint includes (s t : string) : bool :=
  if prefix t s then true
  else match s with
       | EmptyString => false
       | String _ s' => includes s' t
       end.

(** [s.substring(0, n)] *)
Fixpoint substring0 (n : nat) (s : string) : string :=
  match n, s with
  | S k, String c s' => String c (substring0 k s')
  | _, _ => EmptyString
  end.

(** [s.substring(n)]: what is left after the first [n] code units. *)
Fixpoint drop (n : nat) (s : string) : string :=
  match n, s with
  | S k, String _ s' => drop k s'
  | _, _ => s
  end.

(** [s.replace(pat, rep)] with a string pattern: the first occurrence only. *)
Fixpoint replace (pat rep s : string) : string :=
  if prefix pat s then append rep (drop (String.length pat) s)
  else match s with
       | EmptyString => EmptyString
       | String c s' => String c (replace pat rep s')
       end.

(** [s.split(sep)] for a separator of one code unit. *)
Fixpoint split (sep : ascii) (s : string) : list string :=
  match s with
  | EmptyString => [EmptyString]
  | String c s' =>
      if Ascii.eqb c sep then EmptyString :: split sep s'
      else match split sep s' with
           | [] => [String c EmptyString]
           | w :: ws => String c w :: ws
           end
  end.

(** [s.replace(/\s+/g, ' ')]: every maximal run of white space becomes
    one space. [in_run] tells that the previous code unit was white space. *)
Fixpoint collapse_ws (in_run : bool) (s : string) : string :=
  match s with
  | EmptyString => EmptyString
  | String c s' =>
      if is_space c
      then if in_run then collapse_ws true s'
           else String " " (collapse_ws true s')
      else String c (collapse_ws false s')
  end.

(** JavaScript truthiness of a string, and of a possibly undefined one. *)
Definition truthy (s : string) : bool :=
  match s with EmptyString => false | _ => true end.

Definition truthy_opt (o : option string) : bool :=
  match o with Some s => truthy s | None => false end.

End JsString.

(* ================================================================== *)
(** * Host regular expressions: [new RegExp(term, 'g')]

    The fragment of the pattern syntax that is modelled: pattern characters,
    [.], the assertions [^] and [$], and the quantifiers [*], [+], [?] (greedy
    or, followed by [?], lazy) on a one-character atom. A pattern that uses
    anything else (escapes, groups, classes, braces, alternation) is reported
    as [NotModelled]; no statement is made about it. *)

Module JsRegExp.
Import JsString.

Inductive atom : Type :=
| AChar (c : ascii)
| ADot.

Inductive quantifier : Type :=
| QOne
| QStar (greedy : bool)
| QPlus (greedy : bool)
| QOpt (greedy : bool).

Inductive node : Type :=
| NAtom (a : atom) (q : quantifier)
| NBol
| NEol.

Definition pattern := list node.

Inductive compiled : Type :=
| Pattern (p : pattern)
| SyntaxError
| NotModelled.

(** The syntax characters of the pattern grammar. *)
Definition syntax_chars : string := "^$\.*+?()[]{}|".

Fixpoint mem_unit (c : ascii) (s : string) : bool :=
  match s with
  | EmptyString => false
  | String d s' => Ascii.eqb c d || mem_unit c s'
  end.

Definition is_syntax_char (c : ascii) : bool := mem_unit c syntax_chars.

Fixpoint no_syntax_char (s : string) : bool :=
  match s with
  | EmptyString => true
  | String c s' => negb (is_syntax_char c) && no_syntax_char s'
  end.

Definition cons_node (n : node) (r : compiled) : compiled :=
  match r with
  | Pattern p => Pattern (n :: p)
  | SyntaxError => SyntaxError
  | NotModelled => NotModelled
  end.

Definition is_quantifier_char (c : ascii) : bool := mem_unit c "*+?".

(** The parser. A quantifier character where a term must start (at the
    beginning, after an assertion, after a complete quantifier) is the
    error "nothing to repeat". *)
Fixpoint parse (s : string) : compiled :=
  match s with
  | EmptyString => Pattern []
  | String c s' =>
      if Ascii.eqb c "^" then cons_node NBol (parse s')
      else if Ascii.eqb c "$" then cons_node NEol (parse s')
      else if is_quantifier_char c then SyntaxError
      else if is_syntax_char c && negb (Ascii.eqb c ".") then NotModelled
      else
        let a := if Ascii.eqb c "." then ADot else AChar c in
        match s' with
        | String q s'' =>
            if is_quantifier_char q then
              let mk := if Ascii.eqb q "*" then QStar
                        else if Ascii.eqb q "+" then QPlus else QOpt in
              match s'' with
              | String l s''' =>
                  if Ascii.eqb l "?"
                  then cons_node (NAtom a (mk false)) (parse s''')
                  else cons_node (NAtom a (mk true)) (parse s'')
              | EmptyString => cons_node (NAtom a (mk true)) (parse s'')
              end
            else cons_node (NAtom a QOne) (parse s')
        | EmptyString => cons_node (NAtom a QOne) (parse s')
        end
  end.

Definition atom_matches (a : atom) (c : ascii) : bool :=
  match a with
  | AChar x => Ascii.eqb x c
  | ADot => negb (is_line_terminator c)
  end.

(** Length of the longest run of code units at the head of [s] that the
    atom matches. *)
Fixpoint run_length (a : atom) (s : string) : nat :=
  match s with
  | EmptyString => 0
  | String c s' => if atom_matches a c then S (run_length a s') else 0
  end.

(** The first repetition count of the list for which the rest of the
    pattern matches. *)
Fixpoint first_success (k : nat -> option nat) (counts : list nat) : option nat :=
  match counts with
  | [] => None
  | j :: js =>
      match k j with
      | Some n => Some (j + n)
      | None => first_success k js
      end
  end.

(** Repetition counts between [lo] and [hi], in the order the backtracking
    matcher tries them. *)
Definition counts (greedy : bool) (lo hi : nat) : list nat :=
  let up := seq lo (S hi - lo) in
  if greedy then rev up else up.

(** The matcher anchored at the head of [s]: the number of code units of
    the first match in backtracking order. [at_start] tells that [s] is
    the whole input (there is no multiline flag). *)
Fixpoint match_here (p : pattern) (at_start : bool) (s : string) : option nat :=
  match p with
  | [] => Some 0
  | NBol :: p' => if at_start then match_here p' at_start s else None
  | NEol :: p' =>
      match s with
      | EmptyString => match_here p' at_start s
      | String _ _ => None
      end
  | NAtom a q :: p' =>
      let rest := fun j => match_here p' (at_start && (j =? 0)) (drop j s) in
      let n := run_length a s in
      match q with
      | QOne => first_success rest (counts true 1 (Nat.min n 1))
      | QStar g => first_success rest (counts g 0 n)
      | QPlus g => first_success rest (counts g 1 n)
      | QOpt g => first_success rest (counts g 0 (Nat.min n 1))
      end
  end.

(** The number of matches [s.match(re)] collects with the flag [g]: the
    leftmost match from the current index, then on from its end, and one
    code unit further after an empty match. [skip] counts the code units
    still covered by the previous match. *)
Fixpoint scan (p : pattern) (at_start : bool) (skip : nat) (s : string) : nat :=
  match skip with
  | S k =>
      match s with
      | EmptyString => 0
      | String _ s' => scan p false k s'
      end
  | O =>
      match match_here p at_start s with
      | Some n =>
          S (match s with
             | EmptyString => 0
             | String _ s' => scan p false (Nat.pred n) s'
             end)
      | None =>
          match s with
          | EmptyString => 0
          | String _ s' => scan p false 0 s'
          end
      end
  end.

Definition match_count (p : pattern) (text : string) : nat := scan p true 0 text.

(** The pattern of a term without syntax characters: its code units. *)
Fixpoint literal (t : string) : pattern :=
  match t with
  | EmptyString => []
  | String c t' => NAtom (AChar c) QOne :: literal t'
  end.

End JsRegExp.

(* ================================================================== *)
(** * Data model *)

(** What [scrapeArticle] returns and the cache stores. The placeholder of a
    failed scrape has neither [publishDate] nor [scrapedAt]. *)
Record Article : Type := mkArticle {
  url : string;
  title : string;
  summary : string;
  content : string;
  topics : list string;
  publishDate : option string;
  scrapedAt : option string
}.

Inductive Source : Type := FromGoogle | FromCache.

(** An element of a result list: a Google hit has no [content] and no
    [scrapedAt]; a hit of the cache-only variant has no [source]. *)
Record Hit : Type := mkHit {
  hit_url : string;
  hit_title : string;
  hit_summary : string;
  hit_content : option string;
  hit_topics : list string;
  hit_publishDate : option string;
  hit_scrapedAt : option string;
  hit_source : option Source;
  hit_score : Z
}.

(** How a computation ends: with a value, with the [SyntaxError] of the
    [RegExp] constructor, or outside the modelled pattern fragment. *)
Inductive outcome (A : Type) : Type :=
| Returns (a : A)
| ThrowsSyntaxError
| OutsideModel.

Arguments Returns {A} a.
Arguments ThrowsSyntaxError {A}.
Arguments OutsideModel {A}.

Definition bind {A B : Type} (m : outcome A) (k : A -> outcome B) : outcome B :=
  match m with
  | Returns a => k a
  | ThrowsSyntaxError => ThrowsSyntaxError
  | OutsideModel => OutsideModel
  end.

Notation "x <- m ;; k" := (bind m (fun x => k))
  (at level 61, m at next level, right associativity).

(* ================================================================== *)
(** * Insertion-ordered [Map] *)

Module JsMap.

Definition t (V : Type) : Type := list (string * V).

Definition empty {V : Type} : t V := [].

Fixpoint get {V : Type} (m : t V) (k : string) : option V :=
  match m with
  | [] => None
  | (k', v) :: m' => if String.eqb k' k then Some v else get m' k
  end.

(** [m.set(k, v)]: an existing key keeps its place, a new key goes last. *)
Fixpoint set {V : Type} (m : t V) (k : string) (v : V) : t V :=
  match m with
  | [] => [(k, v)]
  | (k', v') :: m' =>
      if String.eqb k' k then (k, v) :: m' else (k', v') :: set m' k v
  end.

Definition keys {V : Type} (m : t V) : list string := map fst m.

Definition size {V : Type} (m : t V) : nat := length m.

(** The representation invariant: no key twice. *)
Definition ok {V : Type} (m : t V) : Prop := NoDup (keys m).

End JsMap.

(* ================================================================== *)
(** * [Array.prototype.sort] with a comparator

    The sort is stable: an element moves in front of another only when the
    comparator says so. *)

Section Sort.
Context {A : Type} (cmp : A -> A -> Z).

Fixpoint insert_sorted (x : A) (l : list A) : list A :=
  match l with
  | [] => [x]
  | y :: l' => if (cmp y x <=? 0)%Z then y :: insert_sorted x l' else x :: l
  end.

Fixpoint sort_snoc (sorted : list A) (l : list A) : list A :=
  match l with
  | [] => sorted
  | x :: l' => sort_snoc (insert_sorted x sorted) l'
  end.

Definition js_sort (l : list A) : list A := sort_snoc [] l.
End Sort.

(* ================================================================== *)
(** * The relevance scorer *)

Module Scorer.
Import JsString.

(** [query.toLowerCase().split(' ').filter(term => term.length > 2)] *)
Definition queryTerms (query : string) : list string :=
  filter (fun term => 2 <? String.length term)
         (split " " (toLowerCase query)).

(** [`${article.title} ${article.summary} ${article.content}`.toLowerCase()] *)
Definition searchableText (article : Article) : string :=
  toLowerCase (title article ++ " " ++ summary article ++ " " ++ content article)%string.

(** [(searchableText.match(new RegExp(term, 'g')) || []).length] *)
Definition contentMatches (term text : string) : outcome nat :=
  match JsRegExp.parse term with
  | JsRegExp.Pattern p => Returns (JsRegExp.match_count p text)
  | JsRegExp.SyntaxError => ThrowsSyntaxError
  | JsRegExp.NotModelled => OutsideModel
  end.

(** One turn of [queryTerms.forEach], from the score so far. *)
Definition score_term (article : Article) (score : Z) (term : string) : outcome Z :=
  let score :=
    if includes (toLowerCase (title article)) term then (score + 5)%Z else score in
  let score :=
    if includes (toLowerCase (summary article)) term then (score + 3)%Z else score in
  let score :=
    if existsb (fun topic => includes topic term) (topics article)
    then (score + 2)%Z else score in
  n <- contentMatches term (searchableText article) ;;
  Returns (score + Z.min (Z.of_nat n) 3)%Z.

(** The score of one article: [let score = 0; queryTerms.forEach(...)]. *)
Definition score_article (terms : list string) (article : Article) : outcome Z :=
  fold_left (fun acc term => score <- acc ;; score_term article score term)
            terms (Returns 0%Z).

(** [{ ...article, score, source: 'cache' }] and [{ ...article, score }] *)
Definition hit_of (src : option Source) (article : Article) (score : Z) : Hit :=
  {| hit_url := url article;
     hit_title := title article;
     hit_summary := summary article;
     hit_content := Some (content article);
     hit_topics := topics article;
     hit_publishDate := publishDate article;
     hit_scrapedAt := scrapedAt article;
     hit_source := src;
     hit_score := score |}.

(** [for (const [url, article] of articleCache.entries()) { ... }] *)
Fixpoint score_entries (src : option Source) (terms : list string)
         (entries : list (string * Article)) (results : list Hit)
  : outcome (list Hit) :=
  match entries with
  | [] => Returns results
  | (_, article) :: rest =>
      score <- score_article terms article ;;
      score_entries src terms rest
        (if (0 <? score)%Z then results ++ [hit_of src article score] else results)
  end.

(** [(a, b) => b.score - a.score] *)
Definition by_score (a b : Hit) : Z := (hit_score b - hit_score a)%Z.

End Scorer.

(** A result list in descending order of score. *)
Fixpoint descending (l : list Hit) : Prop :=
  match l with
  | [] => True
  | a :: l' =>
      match l' with
      | [] => True
      | b :: _ => (hit_score b <= hit_score a)%Z /\ descending l'
      end
  end.

(* ================================================================== *)
(** * The outside world *)

(** A parsed page, seen through the queries the code makes on it. *)
Record Document : Type := mkDocument {
  (** [$(sel).length] *)
  sel_length : string -> nat;
  (** [$(sel).text()] *)
  sel_text : string -> string;
  (** [$(sel).first().text()] *)
  sel_first_text : string -> string;
  (** [$(sel).attr(name)] *)
  sel_attr : string -> string -> option string;
  (** [$(el).text()] for each element [$(sel).each] visits *)
  sel_each_text : string -> list string;
  (** [$(el).attr(name)] for each element [$(sel).each] visits *)
  sel_each_attr : string -> string -> list (option string)
}.

(** One entry of [response.data.items] of the Custom Search API. *)
Record Item : Type := mkItem {
  link : string;
  item_title : string;
  snippet : string
}.

Inductive GoogleResponse : Type :=
| GoogleFailure                      (* [axios.get] throws *)
| GoogleNoItems                      (* [response.data.items] is missing *)
| GoogleItems (items : list Item).

(** What the network and the clock answer during one phase of a call. *)
Record World : Type := mkWorld {
  (** [Date.now()] when staleness is tested *)
  date_now : Z;
  (** [Date.now()] when a refresh completes *)
  date_refreshed : Z;
  (** [new Date().toISOString()] when the page of a URL has been scraped *)
  iso_now : string -> string;
  (** [axios.get(url)] and [cheerio.load]; [None] when either throws *)
  http_get : string -> option Document;
  (** the Custom Search request for a query *)
  google_get : string -> GoogleResponse;
  (** the order in which concurrent requests complete *)
  latency : string -> nat
}.

(** [process.env.GOOGLE_API_KEY] and [process.env.GOOGLE_CSE_ID] *)
Record Config : Type := mkConfig {
  GOOGLE_API_KEY : option string;
  GOOGLE_CSE_ID : option string
}.

(** The module-level variables. *)
Record State : Type := mkState {
  articleCache : JsMap.t Article;
  lastCacheTime : option Z
}.

Definition initial_state : State :=
  {| articleCache := JsMap.empty; lastCacheTime := None |}.

Definition CACHE_DURATION : Z := 30 * 60 * 1000.

(** The cache is well formed when every entry is filed under the URL of its
    record and no record carries the title of the placeholder. *)
Definition cache_wf (cache : JsMap.t Article) : Prop :=
  forall (k : string) (article : Article),
    In (k, article) cache -> url article = k /\ title article <> "Article".

(* ================================================================== *)
(** * [scrapeArticle] *)

Module Scraper.
Import JsString.

(** [a || b] on strings *)
Definition or_str (a b : string) : string := if truthy a then a else b.

(** [a || b] where [a] may be undefined and [b] is a string *)
Definition or_opt (a : option string) (b : string) : string :=
  match a with
  | Some s => or_str s b
  | None => b
  end.

(** An attribute selector such as [meta[name="description"]]: the value
    stands between double quotes. *)
Definition attr_sel (head value : string) : string :=
  let quote := String (ascii_of_nat 34) EmptyString in
  (head ++ quote ++ value ++ quote ++ "]")%string.

Definition extract_title (doc : Document) : string :=
  or_str (trim (sel_first_text doc "h1"))
    (or_str (trim (replace " | The Workline" EmptyString
                     (replace " | FlexOS" EmptyString (sel_text doc "title"))))
            (trim (sel_first_text doc (attr_sel "[class*=" "title")))).

Definition summarySelectors : list string :=
  [ "article p:first-of-type";
    ".content p:first-of-type";
    ".post-content p:first-of-type";
    ".entry-content p:first-of-type";
    "main p:first-of-type";
    "p" ].

(** The [for ... break] loop over [summarySelectors]. *)
Fixpoint first_long_paragraph (doc : Document) (sels : list string)
         (summary : string) : string :=
  match sels with
  | [] => summary
  | selector :: rest =>
      let firstPara := trim (sel_first_text doc selector) in
      if truthy firstPara && (30 <? String.length firstPara)
      then substring0 250 firstPara
      else first_long_paragraph doc rest summary
  end.

Definition extract_summary (doc : Document) : string :=
  let summary :=
    or_opt (sel_attr doc (attr_sel "meta[name=" "description") "content")
      (or_opt (sel_attr doc (attr_sel "meta[property=" "og:description") "content")
              (trim (sel_first_text doc ".excerpt, .summary, .intro"))) in
  if negb (truthy summary) || (String.length summary <? 50)
  then first_long_paragraph doc summarySelectors summary
  else summary.

Definition contentSelectors : list string :=
  [ "article"; ".content, .post-content, .entry-content"; "main"; ".post, .article" ].

Fixpoint first_container (doc : Document) (sels : list string) : string :=
  match sels with
  | [] => EmptyString
  | selector :: rest =>
      if 0 <? sel_length doc selector
      then trim (sel_text doc selector)
      else first_container doc rest
  end.

Definition extract_content (doc : Document) : string :=
  let content := first_container doc contentSelectors in
  let content :=
    if negb (truthy content) || (String.length content <? 100)
    then trim (sel_text doc "body") else content in
  substring0 3000 (collapse_ws false content).

Definition tagSelector : string :=
  (attr_sel "[class*=" "tag" ++ ", " ++ attr_sel "[class*=" "category" ++ ", "
   ++ attr_sel "[rel=" "tag" ++ ", .hashtag")%string.

Definition extract_topics (doc : Document) : list string :=
  let topics :=
    fold_left
      (fun topics text =>
         let tag := replace "#" EmptyString (toLowerCase (trim text)) in
         if truthy tag && (2 <? String.length tag)
            && negb (existsb (String.eqb tag) topics)
         then topics ++ [tag] else topics)
      (sel_each_text doc tagSelector)
      [] in
  firstn 5 topics.

Definition extract_publishDate (doc : Document) : string :=
  or_opt (sel_attr doc "time[datetime]" "datetime")
    (or_opt (sel_attr doc (attr_sel "meta[property=" "article:published_time") "content")
            (trim (sel_first_text doc ".date, .published, .post-date"))).

(** The record of the [catch] branch. *)
Definition placeholder (u : string) : Article :=
  {| url := u; title := "Article"; summary := "Could not load summary";
     content := EmptyString; topics := []; publishDate := None; scrapedAt := None |}.

Definition extract (doc : Document) (u stamp : string) : Article :=
  let title := extract_title doc in
  let summary := extract_summary doc in
  {| url := u;
     title := substring0 150 title;
     summary := if truthy summary
                then append (substring0 300 summary)
                            (if 300 <? String.length summary then "..." else EmptyString)
                else EmptyString;
     content := extract_content doc;
     topics := extract_topics doc;
     publishDate := Some (extract_publishDate doc);
     scrapedAt := Some stamp |}.

Definition scrapeArticle (w : World) (u : string) : Article :=
  match http_get w u with
  | Some doc => extract doc u (iso_now w u)
  | None => placeholder u
  end.

End Scraper.

(* ================================================================== *)
(** * [refreshArticleCache] (the same in both variants) *)

Module Refresh.
Import JsString Scraper.

Definition INDEX_URL : string := "https://www.flexos.work/the-workline/".

Definition linkSelectors : list string :=
  [ attr_sel "a[href*=" "/the-workline/";
    attr_sel "a[href*=" "workline";
    ".post-link, .article-link";
    "article a, .post a";
    "h1 a, h2 a, h3 a" ].

(** [articleUrls.add(href)] on a [Set] kept in insertion order *)
Definition set_add (urls : list string) (href : string) : list string :=
  if existsb (String.eqb href) urls then urls else urls ++ [href].

(** The body of [$(selector).each] for one element. *)
Definition visit_link (urls : list string) (href : option string) : list string :=
  match href with
  | None => urls
  | Some href =>
      if truthy href then
        let href := if startsWith href "/"
                    then ("https://www.flexos.work" ++ href)%string else href in
        if includes href "workline"
           && negb (String.eqb href INDEX_URL)
           && negb (includes href "#")
           && negb (includes href "mailto:")
        then set_add urls href else urls
      else urls
  end.

(** [Array.from(articleUrls)] after [linkSelectors.forEach] *)
Definition discover (doc : Document) : list string :=
  fold_left
    (fun urls selector => fold_left visit_link (sel_each_attr doc selector "href") urls)
    linkSelectors [].

(** [urls.slice(i, j)] *)
Definition slice {A : Type} (i j : nat) (l : list A) : list A :=
  firstn (j - i) (skipn i l).

(** The body of [results.forEach] *)
Definition store_scraped (cache : JsMap.t Article) (article : Article) : JsMap.t Article :=
  if negb (String.eqb (title article) "Article")
  then JsMap.set cache (url article) article
  else cache.

Definition batchSize : nat := 2.

(** The loop [for (let i = 0; i < Math.min(urls.length, 20); i += batchSize)];
    [turns] bounds the number of turns. *)
Fixpoint refresh_loop (turns : nat) (w : World) (urls : list string) (i : nat)
         (cache : JsMap.t Article) : JsMap.t Article :=
  match turns with
  | O => cache
  | S turns' =>
      if i <? Nat.min (length urls) 20 then
        let batch := slice i (i + batchSize) urls in
        let results := map (scrapeArticle w) batch in
        refresh_loop turns' w urls (i + batchSize) (fold_left store_scraped results cache)
      else cache
  end.

(** Ten turns take [i] from 0 to 20, where the loop test fails. *)
Definition max_turns : nat := 10.

Definition refreshArticleCache (w : World) (s : State) : State :=
  match http_get w INDEX_URL with
  | None => s                                         (* the [catch] branch *)
  | Some doc =>
      let urls := discover doc in
      {| articleCache := refresh_loop max_turns w urls 0 (articleCache s);
         lastCacheTime := Some (date_refreshed w) |}
  end.

(** [!lastCacheTime || Date.now() - lastCacheTime > CACHE_DURATION] *)
Definition is_stale (w : World) (s : State) : bool :=
  match lastCacheTime s with
  | None => true
  | Some t => (t =? 0)%Z || (CACHE_DURATION <? date_now w - t)%Z
  end.

End Refresh.

(* ================================================================== *)
(** * The Google-enabled variant *)

Module GoogleApp.
Import JsString Scraper Refresh Scorer.

(** The object a Google item becomes, from the article data at hand. *)
Definition google_hit (item : Item) (articleData : Article) : Hit :=
  {| hit_url := link item;
     hit_title := or_str (title articleData) (item_title item);
     hit_summary := or_str (summary articleData) (snippet item);
     hit_content := None;
     hit_topics := topics articleData;
     hit_publishDate := publishDate articleData;
     hit_scrapedAt := None;
     hit_source := Some FromGoogle;
     hit_score := 10 |}.

(** The article data of an item: the cached record found when the callback
    starts, or a fresh scrape. *)
Definition article_data (w : World) (cache : JsMap.t Article) (item : Item) : Article :=
  match JsMap.get cache (link item) with
  | Some articleData => articleData
  | None => scrapeArticle w (link item)
  end.

Definition is_cached (cache : JsMap.t Article) (item : Item) : bool :=
  match JsMap.get cache (link item) with Some _ => true | None => false end.

(** [articleCache.set(item.link, articleData)] behind its test, run when
    the scrape of the item completes. *)
Definition store_fresh (w : World) (cache : JsMap.t Article) (item : Item)
  : JsMap.t Article :=
  let articleData := scrapeArticle w (link item) in
  if negb (String.eqb (title articleData) "Article")
  then JsMap.set cache (link item) articleData
  else cache.

(** The test of [store_fresh]: the scrape of [u] does not carry the
    placeholder title. *)
Definition storable (w : World) (u : string) : bool :=
  negb (String.eqb (title (scrapeArticle w u)) "Article").

Definition by_latency (w : World) (a b : Item) : Z :=
  (Z.of_nat (latency w (link a)) - Z.of_nat (latency w (link b)))%Z.

(** [searchWithGoogle]: every callback of [Promise.all] looks its item up
    before any scrape completes; the scrapes then complete in the order of
    their latencies. *)
Definition searchWithGoogle (cfg : Config) (w : World) (query : string) (s : State)
  : list Hit * State :=
  if negb (truthy_opt (GOOGLE_API_KEY cfg)) || negb (truthy_opt (GOOGLE_CSE_ID cfg))
  then ([], s)
  else
    match google_get w query with
    | GoogleFailure => ([], s)
    | GoogleNoItems => ([], s)
    | GoogleItems items =>
        let top := firstn 5 items in
        let cache := articleCache s in
        let results := map (fun item => google_hit item (article_data w cache item)) top in
        let pending := filter (fun item => negb (is_cached cache item)) top in
        let completed := js_sort (by_latency w) pending in
        (results,
         {| articleCache := fold_left (store_fresh w) completed cache;
            lastCacheTime := lastCacheTime s |})
    end.

Definition searchCachedArticles (w : World) (query : string) (s : State)
  : outcome (list Hit) * State :=
  let s := if is_stale w s then refreshArticleCache w s else s in
  (results <- score_entries (Some FromCache) (queryTerms query) (articleCache s) [] ;;
   Returns (js_sort by_score results),
   s).

(** [cacheResults.forEach]: a cache hit is pushed unless its URL is
    already among the results gathered so far. *)
Definition merge_results (googleResults cacheResults : list Hit) : list Hit :=
  fold_left
    (fun allResults cacheResult =>
       if existsb (fun result => String.eqb (hit_url result) (hit_url cacheResult))
                  allResults
       then allResults else allResults ++ [cacheResult])
    cacheResults googleResults.

(** [wg] is the world while Google is asked and its hits are scraped,
    [wc] the world while the cache is searched. *)
Definition searchWorklineArticles (cfg : Config) (wg wc : World) (query : string)
           (s : State) : outcome (list Hit) * State :=
  let '(googleResults, s) := searchWithGoogle cfg wg query s in
  let '(cacheOutcome, s) := searchCachedArticles wc query s in
  (cacheResults <- cacheOutcome ;;
   Returns (firstn 5 (js_sort by_score (merge_results googleResults cacheResults))),
   s).

End GoogleApp.

(* ================================================================== *)
(** * The cache-only variant *)

Module CacheApp.
Import JsString Scraper Refresh Scorer.

(** [w1] is the world at the staleness test and the refresh it may start,
    [w2] the world at the second refresh of an empty cache. *)
Definition searchWorklineArticles (w1 w2 : World) (query : string) (s : State)
  : outcome (list Hit) * State :=
  let s := if is_stale w1 s then refreshArticleCache w1 s else s in
  let s := if JsMap.size (articleCache s) =? 0 then refreshArticleCache w2 s else s in
  (results <- score_entries None (queryTerms query) (articleCache s) [] ;;
   Returns (firstn 5 (js_sort by_score results)),
   s).

End CacheApp.

(* ================================================================== *)
(** * The scoring rule in the words of the specification *)

Module Spec.
Import JsString.

(** [t] occurs in [s]. *)
Definition substring_of (t s : string) : Prop :=
  exists before after, s = (before ++ t ++ after)%string.

(** Occurrences of a non-empty [t] in [s], counted from the left without
    overlap; [skip] code units at the head of [s] belong to the
    occurrence counted last. *)
Fixpoint occurrences_from (t : string) (skip : nat) (s : string) : nat :=
  match s with
  | EmptyString => 0
  | String _ s' =>
      match skip with
      | S k => occurrences_from t k s'
      | O => if prefix t s
             then S (occurrences_from t (String.length t - 1) s')
             else occurrences_from t 0 s'
      end
  end.

Definition occurrences (t s : string) : nat := occurrences_from t 0 s.

Definition points (b : bool) (n : Z) : Z := if b then n else 0%Z.

(** What one term adds: 5 for the title, 3 for the summary, 2 for the
    topics, and the capped number of occurrences in [text]. *)
Definition term_relevance (text : Article -> string) (count : string -> string -> nat)
           (article : Article) (term : string) : Z :=
  (points (includes (toLowerCase (title article)) term) 5
   + points (includes (toLowerCase (summary article)) term) 3
   + points (existsb (fun topic => includes topic term) (topics article)) 2
   + Z.min (Z.of_nat (count term (text article))) 3)%Z.

Fixpoint sum (l : list Z) : Z :=
  match l with
  | [] => 0%Z
  | x :: l' => (x + sum l')%Z
  end.

(** The rule as the code has it: terms are cut at single spaces, and
    occurrences are counted without overlap in the lowercased text
    "title summary content". *)
Definition relevance (terms : list string) (article : Article) : Z :=
  sum (map (term_relevance Scorer.searchableText occurrences article) terms).

(** The rule as the specification words it: the query is cut at white
    space, and occurrences are counted at every position of the
    concatenation of title, summary and body. *)
Fixpoint split_whitespace (s : string) : list string :=
  match s with
  | EmptyString => [EmptyString]
  | String c s' =>
      if is_space c then EmptyString :: split_whitespace s'
      else match split_whitespace s' with
           | [] => [String c EmptyString]
           | w :: ws => String c w :: ws
           end
  end.

Definition stated_terms (query : string) : list string :=
  filter (fun term => 2 <? String.length term)
         (split_whitespace (toLowerCase query)).

Definition stated_text (article : Article) : string :=
  (title article ++ summary article ++ content article)%string.

Fixpoint stated_occurrences (t s : string) : nat :=
  (if prefix t s then 1 else 0) +
  match s with
  | EmptyString => 0
  | String _ s' => stated_occurrences t s'
  end.

Definition stated_relevance (query : string) (article : Article) : Z :=
  sum (map (term_relevance stated_text stated_occurrences article) (stated_terms query)).

End Spec.

(* ================================================================== *)
(** * Sample data *)

Definition hybrid_guide : Article :=
  {| url := "https://www.flexos.work/the-workline/hybrid";
     title := "Hybrid Work Guide"; summary := EmptyString;
     content := "hybrid hybrid work"; topics := [];
     publishDate := None; scrapedAt := None |}.

Definition TAB : ascii := ascii_of_nat 9.

Definition abc_page : Article :=
  {| url := "https://www.flexos.work/the-workline/abc";
     title := "abc"; summary := EmptyString; content := EmptyString; topics := [];
     publishDate := None; scrapedAt := None |}.

(** [article] with [term] appended to its body. *)
Definition append_to_body (article : Article) (term : string) : Article :=
  {| url := url article; title := title article; summary := summary article;
     content := (content article ++ term)%string; topics := topics article;
     publishDate := publishDate article; scrapedAt := scrapedAt article |}.

Definition abc_body : Article :=
  {| url := "https://www.flexos.work/the-workline/body";
     title := "Notes"; summary := EmptyString; content := "abc"; topics := [];
     publishDate := None; scrapedAt := None |}.


(** A network that answers nothing. *)
Definition offline : World :=
  {| date_now := 1700000000000; date_refreshed := 1700000001000;
     iso_now := fun _ => "2023-11-14T22:13:20.000Z";
     http_get := fun _ => None;
     google_get := fun _ => GoogleFailure;
     latency := fun _ => 0 |}.

Definition no_google : Config :=
  {| GOOGLE_API_KEY := None; GOOGLE_CSE_ID := None |}.

Definition with_google : Config :=
  {| GOOGLE_API_KEY := Some "key"; GOOGLE_CSE_ID := Some "cse" |}.

(** A cache of one article, refreshed a second before [offline]'s clock. *)
Definition one_article : State :=
  {| articleCache := [(url hybrid_guide, hybrid_guide)];
     lastCacheTime := Some 1699999999000%Z |}.

(** A page on which no query finds anything. *)
Definition blank_page : Document :=
  {| sel_length := fun _ => 0;
     sel_text := fun _ => EmptyString;
     sel_first_text := fun _ => EmptyString;
     sel_attr := fun _ _ => None;
     sel_each_text := fun _ => [];
     sel_each_attr := fun _ _ => [] |}.

Definition change_url : string := "https://www.flexos.work/the-workline/change".

(** An index page with one relative link, found by the first selector. *)
Definition index_page : Document :=
  {| sel_length := fun _ => 0;
     sel_text := fun _ => EmptyString;
     sel_first_text := fun _ => EmptyString;
     sel_attr := fun _ _ => None;
     sel_each_text := fun _ => [];
     sel_each_attr := fun selector _ =>
       if String.eqb selector (Scraper.attr_sel "a[href*=" "/the-workline/")
       then [Some "/the-workline/change"] else [] |}.

Definition change_page : Document :=
  {| sel_length := fun _ => 0;
     sel_text := fun selector =>
       if String.eqb selector "title" then "Change Management | FlexOS" else EmptyString;
     sel_first_text := fun selector =>
       if String.eqb selector "h1" then "  Change Management at IKEA " else EmptyString;
     sel_attr := fun _ _ => None;
     sel_each_text := fun _ => [];
     sel_each_attr := fun _ _ => [] |}.

(** A network that serves the index page and the article it links to, and
    a page without any text at [blank_url]. *)
Definition blank_url : string := "https://www.flexos.work/the-workline/blank".

Definition online : World :=
  {| date_now := 1700000000000; date_refreshed := 1700000001000;
     iso_now := fun _ => "2023-11-14T22:13:20.000Z";
     http_get := fun u =>
       if String.eqb u Refresh.INDEX_URL then Some index_page
       else if String.eqb u change_url then Some change_page
       else if String.eqb u blank_url then Some blank_page
       else None;
     google_get := fun _ =>
       GoogleItems [ {| link := change_url; item_title := "Change"; snippet := "..." |} ];
     latency := fun _ => 0 |}.

(** An article that scores 13 on the query "abc": title, summary, a topic,
    and three occurrences in the text. *)
Definition strong (u : string) : Article :=
  {| url := u; title := "abc"; summary := "abc"; content := "abc"; topics := ["abc"];
     publishDate := None; scrapedAt := None |}.

(** The article of [change_url] as cached: it scores 6 on "abc". *)
Definition change_cached : Article :=
  {| url := change_url; title := "abc of change"; summary := EmptyString;
     content := EmptyString; topics := []; publishDate := None; scrapedAt := None |}.

(** A fresh cache of six articles that all match "abc". *)
Definition crowded : State :=
  {| articleCache :=
       (change_url, change_cached)
       :: map (fun u => (u, strong u))
            [ "https://www.flexos.work/the-workline/a1";
              "https://www.flexos.work/the-workline/a2";
              "https://www.flexos.work/the-workline/a3";
              "https://www.flexos.work/the-workline/a4";
              "https://www.flexos.work/the-workline/a5" ];
     lastCacheTime := Some 1699999999000%Z |}.

(* ================================================================== *)
(** * Predicates for the properties of the code *)

(** What the link discoverer accepts as the URL of an article. *)
Definition article_url (u : string) : Prop :=
  JsString.includes u "workline" = true
  /\ u <> Refresh.INDEX_URL
  /\ JsString.includes u "#" = false
  /\ JsString.includes u "mailto:" = false.

(** No white space but single spaces. *)
Fixpoint single_spaced (s : string) : Prop :=
  match s with
  | EmptyString => True
  | String c s' =>
      (JsString.is_space c = true -> c = " "%char)
      /\ match s' with
         | EmptyString => True
         | String d _ => ~ (c = " "%char /\ d = " "%char)
         end
      /\ single_spaced s'
  end.

(** What [scrapeArticle] keeps as a topic. *)
Definition topic_ok (t : string) : Prop :=
  2 < String.length t /\ JsString.toLowerCase t = t.

(** The results that have the score [z]. *)
Definition scored (z : Z) (h : Hit) : bool := (hit_score h =? z)%Z.

(** The score of an article when the scorer returns one, and 0 otherwise. *)
Definition score_or_zero (terms : list string) (article : Article) : Z :=
  match Scorer.score_article terms article with
  | Returns score => score
  | _ => 0%Z
  end.

(** The hits of the articles with a positive score, in the order given. *)
Definition positive_hits (src : option Source) (terms : list string)
           (articles : list Article) : list Hit :=
  map (fun article => Scorer.hit_of src article (score_or_zero terms article))
      (filter (fun article => (0 <? score_or_zero terms article)%Z) articles).

(* ================================================================== *)
(** * Slack messages

    The fixed texts of the messages hold their characters beyond U+00FF
    (emoji, bullets) in UTF-8; the code only concatenates them. *)

Module Slack.

(** The line feed and the double quote. *)
Definition NL : string := String (ascii_of_nat 10) EmptyString.
Definition DQ : string := String (ascii_of_nat 34) EmptyString.

(** A number in a template literal: its decimal digits. *)
Definition decimal (n : nat) : string :=
  DecimalString.NilEmpty.string_of_uint (Nat.to_uint n).

Inductive TextObject : Type :=
| Mrkdwn (text : string)
| PlainText (text : string).

Record Button : Type := mkButton {
  button_text : TextObject;
  button_url : string;
  action_id : string
}.

Inductive Block : Type :=
| SectionBlock (text : TextObject) (accessory : option Button)
| DividerBlock
| ContextBlock (elements : list TextObject).

(** The argument of [respond]. *)
Record Response : Type := mkResponse {
  resp_text : option string;
  resp_blocks : option (list Block);
  response_type : option string;
  replace_original : option bool
}.

(** What a handler does to Slack, in order. *)
Inductive Event : Type :=
| Ack
| Respond (r : Response)
| SayText (text : string)
| SayBlocks (blocks : list Block).

Definition READ_ARTICLE : string :=
  ("📖 Read Article")%string.

Definition CACHE_TIP : string :=
  ("💡 *Tip:* Try specific terms like 'change management', 'hybrid work', or 'employee experience' for better results")%string.

Definition GOOGLE_TIP : string :=
  ("💡 *Tip:* 🌐 = Google Search results, 💾 = Local cache results")%string.

Definition WELCOME : string :=
  ("🔍 *Welcome to Workline Search*" ++ NL ++ NL ++
   "I can help you find Phil Kirschner's insights on workplace transformation, hybrid work, and organizational change.")%string.

Definition CACHE_HOW_TO : string :=
  ("*How to search:*" ++ NL ++
   "• `/workline change management` - Find change insights" ++ NL ++
   "• `/workline hybrid work` - Discover hybrid strategies" ++ NL ++
   "• `/workline employee experience` - Explore EX topics" ++ NL ++
   "• `/workline latest` - See recent articles")%string.

Definition GOOGLE_HOW_TO : string :=
  ("*How to search:*" ++ NL ++
   "• `/workline change management` - Find change insights" ++ NL ++
   "• `/workline hybrid work` - Discover hybrid strategies" ++ NL ++
   "• `/workline employee experience` - Explore EX topics" ++ NL ++
   "• `/workline IKEA` - Find specific terms within articles")%string.

Definition CACHE_POPULAR : string :=
  ("*Popular topics:* change management, hybrid work, employee experience, workplace metrics, leadership, innovation, remote work")%string.

Definition TRY_SEARCHING : string :=
  ("*Try searching for:*" ++ NL ++ "• change management" ++ NL ++
   "• hybrid work" ++ NL ++ "• employee experience" ++ NL ++
   "• workplace metrics" ++ NL ++ "• innovation" ++ NL ++ "• leadership")%string.

Definition SORRY : string :=
  ("Sorry, I encountered an error while searching. Please try again in a moment.")%string.



(** The first block of a result message. *)
Definition found_header (query : string) (count : nat) : Block :=
  SectionBlock
    (Mrkdwn ("🎯 *Found " ++ decimal count ++ " result"
             ++ (if negb (count =? 1)%nat then "s" else EmptyString)
             ++ " for " ++ DQ ++ query ++ DQ ++ "*")%string)
    None.

Definition read_button (result : Hit) (index : nat) : Button :=
  {| button_text := PlainText READ_ARTICLE;
     button_url := hit_url result;
     action_id := ("read_" ++ decimal index)%string |}.

Definition searching_text (query : string) : string :=
  ("🔍 Searching for " ++ DQ ++ query ++ DQ ++ "...")%string.

Definition no_articles_blocks (query : string) : list Block :=
  [ SectionBlock
      (Mrkdwn ("🤷‍♂️ No articles found for *" ++ DQ ++ query ++ DQ ++ "*")%string) None;
    SectionBlock (Mrkdwn TRY_SEARCHING) None ].

(** [/^read_\d+$/], the pattern of the button handler [app.action]. *)
Definition is_digit (c : ascii) : bool :=
  (48 <=? nat_of_ascii c) && (nat_of_ascii c <=? 57).

Fixpoint all_digits (s : string) : bool :=
  match s with
  | EmptyString => true
  | String c s' => is_digit c && all_digits s'
  end.

Definition read_action (id : string) : bool :=
  prefix "read_" id
  && JsString.truthy (JsString.drop 5 id)
  && all_digits (JsString.drop 5 id).

(** The buttons of a message, in order. *)
Fixpoint buttons (blocks : list Block) : list Button :=
  match blocks with
  | [] => []
  | SectionBlock _ (Some b) :: rest => b :: buttons rest
  | _ :: rest => buttons rest
  end.

(** The blocks [results.forEach] pushes for the result at [index]: those
    of the result itself, given by [plain], and a divider unless the result
    is the last one. *)
Definition result_blocks (plain : nat -> Hit -> list Block) (total index : nat)
           (result : Hit) : list Block :=
  plain index result ++ (if index <? total - 1 then [DividerBlock] else []).

Fixpoint results_blocks (plain : nat -> Hit -> list Block) (total index : nat)
         (results : list Hit) : list Block :=
  match results with
  | [] => []
  | result :: rest =>
      result_blocks plain total index result
      ++ results_blocks plain total (S index) rest
  end.

(** [formatSearchResults]: header and divider, the blocks of the
    results, divider and tip. *)
Definition format_results (plain : nat -> Hit -> list Block) (tip query : string)
           (results : list Hit) : list Block :=
  [found_header query (length results); DividerBlock]
  ++ results_blocks plain (length results) 0 results
  ++ [DividerBlock; ContextBlock [Mrkdwn tip]].

(** No two dividers in a row. *)
Fixpoint no_double_divider (blocks : list Block) : Prop :=
  match blocks with
  | [] => True
  | b :: rest =>
      match b, rest with
      | DividerBlock, DividerBlock :: _ => False
      | _, _ => no_double_divider rest
      end
  end.

End Slack.

(* ================================================================== *)
(** * The messages of the cache-only variant *)

Module CacheAppSlack.
Import JsString Slack.

(** The section of a result and, when there is metadata, its context
    block. [locale_date] is [new Date(s).toLocaleDateString()]. *)
Definition plain_blocks (locale_date : string -> string) (index : nat)
           (result : Hit) : list Block :=
  let main :=
    SectionBlock
      (Mrkdwn ("*<" ++ hit_url result ++ "|" ++ hit_title result ++ ">*" ++ NL
               ++ hit_summary result)%string)
      (Some (read_button result index)) in
  let metadata : list string := [] in
  let metadata :=
    if 0 <? length (hit_topics result)
    then metadata ++ [("🏷️ " ++ String.concat ", " (firstn 3 (hit_topics result)))%string]
    else metadata in
  let metadata :=
    if truthy_opt (hit_publishDate result)
    then metadata ++ [("📅 " ++ locale_date (match hit_publishDate result with
                                            | Some d => d
                                            | None => EmptyString
                                            end))%string]
    else metadata in
  [main]
  ++ (if 0 <? length metadata
      then [ContextBlock [Mrkdwn (String.concat " • " metadata)]] else []).

Definition formatSearchResults (locale_date : string -> string) (query : string)
           (results : list Hit) : list Block :=
  format_results (plain_blocks locale_date) CACHE_TIP query results.

Definition help_blocks : list Block :=
  [ SectionBlock (Mrkdwn WELCOME) None;
    DividerBlock;
    SectionBlock (Mrkdwn CACHE_HOW_TO) None;
    SectionBlock (Mrkdwn CACHE_POPULAR) None ].

(** The handler of the command [/workline]. *)
Definition command_handler (locale_date : string -> string) (w1 w2 : World)
           (text : string) (s : State) : outcome (list Event) * State :=
  let query := trim text in
  if negb (truthy query) then
    (Returns
       [Ack;
        Respond {| resp_text := None; resp_blocks := Some help_blocks;
                   response_type := None; replace_original := None |}],
     s)
  else
    let searching :=
      Respond {| resp_text := Some (searching_text query); resp_blocks := None;
                 response_type := Some "ephemeral"; replace_original := None |} in
    let '(found, s) := CacheApp.searchWorklineArticles w1 w2 query s in
    (match found with
     | Returns results =>
         Returns
           [Ack; searching;
            Respond
              {| resp_text := None;
                 resp_blocks :=
                   Some (if length results =? 0 then no_articles_blocks query
                         else formatSearchResults locale_date query results);
                 response_type := None; replace_original := Some true |}]
     | ThrowsSyntaxError =>                              (* the [catch] branch *)
         Returns
           [Ack; searching;
            Respond {| resp_text := Some SORRY; resp_blocks := None;
                       response_type := None; replace_original := Some true |}]
     | OutsideModel => OutsideModel
     end,
     s).

End CacheAppSlack.

(** Only white space. *)
Fixpoint all_space (s : string) : bool :=
  match s with
  | EmptyString => true
  | String c s' => JsString.is_space c && all_space s'
  end.

Definition is_divider (b : Slack.Block) : bool :=
  match b with Slack.DividerBlock => true | _ => false end.

(** There is a first block, and it is no divider. *)
Definition starts_plain (blocks : list Slack.Block) : Prop :=
  match blocks with
  | [] => False
  | b :: _ => is_divider b = false
  end.

(** There is a last block, and it is no divider. *)
Fixpoint ends_plain (blocks : list Slack.Block) : Prop :=
  match blocks with
  | [] => False
  | b :: rest =>
      match rest with
      | [] => is_divider b = false
      | _ :: _ => ends_plain rest
      end
  end.

(* ================================================================== *)
(** * The messages of the Google-enabled variant *)

Module GoogleAppSlack.
Import JsString Slack.

Definition is_google (result : Hit) : bool :=
  match hit_source result with
  | Some FromGoogle => true
  | _ => false
  end.

Definition plain_blocks (locale_date : string -> string) (index : nat)
           (result : Hit) : list Block :=
  let sourceEmoji := if is_google result then "🌐" else "💾" in
  let main :=
    SectionBlock
      (Mrkdwn (sourceEmoji ++ " *<" ++ hit_url result ++ "|" ++ hit_title result
               ++ ">*" ++ NL ++ hit_summary result)%string)
      (Some (read_button result index)) in
  let metadata : list string := [] in
  let metadata :=
    if 0 <? length (hit_topics result)
    then metadata ++ [("🏷️ " ++ String.concat ", " (firstn 3 (hit_topics result)))%string]
    else metadata in
  let metadata :=
    if truthy_opt (hit_publishDate result)
    then metadata ++ [("📅 " ++ locale_date (match hit_publishDate result with
                                            | Some d => d
                                            | None => EmptyString
                                            end))%string]
    else metadata in
  let metadata :=
    match hit_source result with
    | Some _ =>
        metadata ++ [("🔍 " ++ (if is_google result then "Google Search"
                                else "Local Cache"))%string]
    | None => metadata
    end in
  [main]
  ++ (if 0 <? length metadata
      then [ContextBlock [Mrkdwn (String.concat " • " metadata)]] else []).

Definition formatSearchResults (locale_date : string -> string) (query : string)
           (results : list Hit) : list Block :=
  format_results (plain_blocks locale_date) GOOGLE_TIP query results.

Definition help_blocks (cfg : Config) : list Block :=
  let hasGoogleSearch :=
    truthy_opt (GOOGLE_API_KEY cfg) && truthy_opt (GOOGLE_CSE_ID cfg) in
  [ SectionBlock (Mrkdwn WELCOME) None;
    DividerBlock;
    SectionBlock (Mrkdwn GOOGLE_HOW_TO) None;
    SectionBlock
      (Mrkdwn ("*Search powered by:* "
               ++ (if hasGoogleSearch then "🌐 Google Custom Search + 💾 Local Cache"
                   else "💾 Local Cache Only")
               ++ NL
               ++ "*Popular topics:* change management, hybrid work, employee experience, workplace metrics, leadership, innovation")%string)
      None ].

(** The handler of the command [/workline]. *)
Definition command_handler (locale_date : string -> string) (cfg : Config)
           (wg wc : World) (text : string) (s : State)
  : outcome (list Event) * State :=
  let query := trim text in
  if negb (truthy query) then
    (Returns
       [Ack;
        Respond {| resp_text := None; resp_blocks := Some (help_blocks cfg);
                   response_type := None; replace_original := None |}],
     s)
  else
    let searching :=
      Respond {| resp_text := Some (searching_text query); resp_blocks := None;
                 response_type := Some "ephemeral"; replace_original := None |} in
    let '(found, s) := GoogleApp.searchWorklineArticles cfg wg wc query s in
    (match found with
     | Returns results =>
         Returns
           [Ack; searching;
            Respond
              {| resp_text := None;
                 resp_blocks :=
                   Some (if length results =? 0 then no_articles_blocks query
                         else formatSearchResults locale_date query results);
                 response_type := None; replace_original := Some true |}]
     | ThrowsSyntaxError =>                              (* the [catch] branch *)
         Returns
           [Ack; searching;
            Respond {| resp_text := Some SORRY; resp_blocks := None;
                       response_type := None; replace_original := Some true |}]
     | OutsideModel => OutsideModel
     end,
     s).





End GoogleAppSlack.

(** What the two variants share: the blocks of one result are its
    section, with the button, and at most one context block. *)
Definition result_shape (plain : nat -> Hit -> list Slack.Block) : Prop :=
  forall (index : nat) (result : Hit),
    exists (text : Slack.TextObject) (context : list Slack.Block),
      plain index result
      = Slack.SectionBlock text (Some (Slack.read_button result index)) :: context
      /\ (context = [] \/ exists elements, context = [Slack.ContextBlock elements]).

(* ================================================================== *)
(** * The first variant: links of the index page, filtered by title *)

Module SimpleApp.
Import JsString.

Record Link : Type := mkLink {
  link_url : string;
  link_title : string
}.

Definition linkSelector : string :=
  (Scraper.attr_sel "a[href*=" "/the-workline/" ++ ", "
   ++ Scraper.attr_sel "a[href*=" "workline")%string.

(** The body of [$(...).each] for one element, from its [href] and text. *)
Definition visit (articleLinks : list Link) (el : option string * string) : list Link :=
  let text := trim (snd el) in
  match fst el with
  | None => articleLinks
  | Some href =>
      if truthy href && truthy text
         && negb (String.eqb href Refresh.INDEX_URL)
         && includes href "workline"
      then
        let fullUrl := if startsWith href "http" then href
                       else ("https://www.flexos.work" ++ href)%string in
        articleLinks ++ [{| link_url := fullUrl; link_title := text |}]
      else articleLinks
  end.

Definition findWorklineArticles (w : World) (query : string) : list Link :=
  match http_get w Refresh.INDEX_URL with
  | None => []                                           (* the [catch] branch *)
  | Some doc =>
      let articleLinks :=
        fold_left visit
          (combine (sel_each_attr doc linkSelector "href")
                   (sel_each_text doc linkSelector))
          [] in
      if truthy query && negb (String.eqb query "latest") then
        let queryTerms := split " " (toLowerCase query) in
        firstn 3
          (filter
             (fun article =>
                existsb (fun term => includes (toLowerCase (link_title article)) term)
                        queryTerms)
             articleLinks)
      else firstn 3 articleLinks
  end.

End SimpleApp.

(** What the first variant accepts as a link to an article. *)
Definition article_link (l : SimpleApp.Link) : Prop :=
  prefix "http" (SimpleApp.link_url l) = true
  /\ JsString.includes (SimpleApp.link_url l) "workline" = true
  /\ SimpleApp.link_title l <> EmptyString.

(** Every code unit of [s] passes the test [p]. *)
Fixpoint string_forall (p : ascii -> bool) (s : string) : bool :=
  match s with
  | EmptyString => true
  | String c s' => p c && string_forall p s'
  end.

(** A network on which Google answers with one item whose page cannot be
    fetched. *)
Definition gone_item : Item :=
  {| link := "https://www.flexos.work/the-workline/gone";
     item_title := "Gone but indexed"; snippet := "A page Google still lists." |}.

Definition dead_link : World :=
  {| date_now := 1700000000000; date_refreshed := 1700000001000;
     iso_now := fun _ => "2023-11-14T22:13:20.000Z";
     http_get := fun _ => None;
     google_get := fun _ => GoogleItems [gone_item];
     latency := fun _ => 0 |}.
(* ================================================================== *)
(** * Facts about strings *)

Section StringFacts.
Import JsString.

Lemma prefix_nil (s : string) : prefix EmptyString s = true.
Proof. destruct s; reflexivity. Qed.

Lemma prefix_cons (a b : ascii) (t s : string) :
  prefix (String a t) (String b s) = Ascii.eqb a b && prefix t s.
Proof.
  simpl. destruct (ascii_dec a b) as [->|Hne].
  - now rewrite Ascii.eqb_refl.
  - apply Ascii.eqb_neq in Hne. now rewrite Hne.
Qed.

Lemma prefix_app (t s x : string) :
  prefix t s = true -> prefix t (s ++ x) = true.
Proof.
  revert s; induction t as [|a t IH]; intros s H.
  - apply prefix_nil.
  - destruct s as [|b s]; [discriminate|].
    rewrite prefix_cons in H. apply andb_true_iff in H as [Hab Hts].
    change (String b s ++ x)%string with (String b (s ++ x)).
    rewrite prefix_cons, Hab. simpl. now apply IH.
Qed.

Lemma prefix_length (t s : string) :
  prefix t s = true -> String.length t <= String.length s.
Proof.
  revert s; induction t as [|a t IH]; intros s H; simpl; [lia|].
  destruct s as [|b s]; [discriminate|].
  rewrite prefix_cons in H. apply andb_true_iff in H as [_ H].
  apply IH in H. simpl. lia.
Qed.

Lemma prefix_split (t s : string) :
  prefix t s = true <-> exists after, s = (t ++ after)%string.
Proof.
  revert s; induction t as [|a t IH]; intros s.
  - rewrite prefix_nil. split; [exists s; reflexivity | reflexivity].
  - destruct s as [|b s].
    + split; [discriminate | intros [x Hx]; discriminate].
    + rewrite prefix_cons, andb_true_iff, IH. split.
      * intros [Hab [x ->]]. apply Ascii.eqb_eq in Hab as ->. now exists x.
      * intros [x Hx]. simpl in Hx. injection Hx as -> ->.
        split; [apply Ascii.eqb_refl | now exists x].
Qed.

(** [includes] decides [substring_of]. *)
Lemma includes_spec (s t : string) :
  includes s t = true <-> Spec.substring_of t s.
Proof.
  induction s as [|c s IH].
  - cbn [includes]. destruct (prefix t EmptyString) eqn:Hp.
    + split; [intros _ | reflexivity].
      apply prefix_split in Hp as [x Hx]. exists EmptyString, x. exact Hx.
    + split; [discriminate|]. intros [a [b Hab]].
      destruct a; [|discriminate]. simpl in Hab.
      assert (prefix t EmptyString = true) as E
          by (apply prefix_split; now exists b).
      congruence.
  - cbn [includes]. destruct (prefix t (String c s)) eqn:Hp.
    + split; [intros _ | reflexivity].
      apply prefix_split in Hp as [x Hx]. exists EmptyString, x. exact Hx.
    + rewrite IH. split.
      * intros [a [b ->]]. now exists (String c a), b.
      * intros [a [b Hab]]. destruct a as [|c' a].
        -- simpl in Hab.
           assert (prefix t (String c s) = true) as E
               by (apply prefix_split; now exists b).
           congruence.
        -- simpl in Hab. injection Hab as _ ->. now exists a, b.
Qed.

Lemma toLowerCase_app (s x : string) :
  toLowerCase (s ++ x) = (toLowerCase s ++ toLowerCase x)%string.
Proof. induction s as [|c s IH]; simpl; [reflexivity | now rewrite IH]. Qed.

Lemma substring0_length (n : nat) (s : string) :
  String.length (substring0 n s) <= n.
Proof.
  revert s; induction n as [|n IH]; intros [|c s]; simpl; try lia.
  specialize (IH s). lia.
Qed.

Lemma substring0_nil (n : nat) (s : string) :
  s = EmptyString -> substring0 n s = EmptyString.
Proof. intros ->. now destruct n. Qed.

Lemma prefix_app_short (t s x : string) :
  prefix t (s ++ x) = true -> prefix t s = false ->
  String.length s < String.length t.
Proof.
  revert s; induction t as [|a t IH]; intros s Hx Hs.
  - now rewrite prefix_nil in Hs.
  - destruct s as [|b s]; [simpl; lia|].
    change (String b s ++ x)%string with (String b (s ++ x)) in Hx.
    rewrite prefix_cons in Hx, Hs. apply andb_true_iff in Hx as [Hab Hx].
    rewrite Hab in Hs. cbn [andb] in Hs.
    specialize (IH s Hx Hs). simpl. lia.
Qed.

Lemma append_assoc3 (a b c : string) :
  ((a ++ b) ++ c)%string = (a ++ b ++ c)%string.
Proof. induction a as [|x a IH]; simpl; [reflexivity | now rewrite IH]. Qed.

End StringFacts.

(* ================================================================== *)
(** * Facts about the pattern fragment *)

Section RegExpFacts.
Import JsString JsRegExp.

Lemma plain_unit (c : ascii) :
  is_syntax_char c = false ->
  Ascii.eqb c "^" = false /\ Ascii.eqb c "$" = false /\
  Ascii.eqb c "." = false /\ is_quantifier_char c = false.
Proof.
  unfold is_syntax_char, syntax_chars, is_quantifier_char. cbn [mem_unit].
  intros H.
  repeat match type of H with
         | (_ || _)%bool = false => apply orb_false_iff in H; destruct H as [? H]
         end.
  repeat split; try assumption.
  all: repeat (apply orb_false_iff; split; try assumption); reflexivity.
Qed.

Lemma parse_cons_plain (c : ascii) (s : string) :
  is_syntax_char c = false ->
  parse (String c s) =
  match s with
  | String q s'' =>
      if is_quantifier_char q then
        let mk := if Ascii.eqb q "*" then QStar
                  else if Ascii.eqb q "+" then QPlus else QOpt in
        match s'' with
        | String l s''' =>
            if Ascii.eqb l "?"
            then cons_node (NAtom (AChar c) (mk false)) (parse s''')
            else cons_node (NAtom (AChar c) (mk true)) (parse s'')
        | EmptyString => cons_node (NAtom (AChar c) (mk true)) (parse s'')
        end
      else cons_node (NAtom (AChar c) QOne) (parse s)
  | EmptyString => cons_node (NAtom (AChar c) QOne) (parse s)
  end.
Proof.
  intros H. destruct (plain_unit c H) as (H1 & H2 & H3 & H4).
  cbn [parse]. rewrite H1, H2, H4, H, H3. reflexivity.
Qed.

Lemma parse_literal (t : string) :
  no_syntax_char t = true -> parse t = Pattern (literal t).
Proof.
  induction t as [|c t IH]; intros H; [reflexivity|].
  cbn [no_syntax_char] in H. apply andb_true_iff in H as [Hc Ht].
  apply negb_true_iff in Hc.
  rewrite (parse_cons_plain c t Hc).
  destruct t as [|q t'].
  - reflexivity.
  - assert (is_quantifier_char q = false) as Hq.
    { cbn [no_syntax_char] in Ht. apply andb_true_iff in Ht as [Hq _].
      apply negb_true_iff in Hq. now apply plain_unit in Hq. }
    rewrite Hq, (IH Ht). reflexivity.
Qed.

Lemma match_here_literal (t : string) :
  forall (at_start : bool) (s : string),
    match_here (literal t) at_start s =
    if prefix t s then Some (String.length t) else None.
Proof.
  induction t as [|c t IH]; intros at_start s.
  - now rewrite prefix_nil.
  - cbn [literal match_here]. destruct s as [|d s].
    + reflexivity.
    + rewrite prefix_cons. cbn [run_length atom_matches].
      destruct (Ascii.eqb c d); cbn [andb].
      * replace (Nat.min (S (run_length (AChar c) s)) 1) with 1 by lia.
        cbn [counts seq Nat.sub rev app first_success drop].
        rewrite IH. now destruct (prefix t s).
      * reflexivity.
Qed.

(** With the flag [g], a term without syntax characters is found as
    often as it occurs from the left without overlap. *)
Lemma scan_literal (t : string) :
  t <> EmptyString ->
  forall (s : string) (at_start : bool) (skip : nat),
    scan (literal t) at_start skip s = Spec.occurrences_from t skip s.
Proof.
  intros Ht. induction s as [|d s IH]; intros at_start skip.
  - destruct skip; [|reflexivity].
    cbn [scan Spec.occurrences_from]. rewrite match_here_literal.
    destruct t; [congruence | reflexivity].
  - destruct skip as [|k].
    + cbn [scan Spec.occurrences_from]. rewrite match_here_literal.
      destruct (prefix t (String d s)).
      * rewrite IH. now rewrite Nat.sub_1_r.
      * apply IH.
    + cbn [scan Spec.occurrences_from]. apply IH.
Qed.

Lemma contentMatches_literal (term text : string) :
  term <> EmptyString -> no_syntax_char term = true ->
  Scorer.contentMatches term text = Returns (Spec.occurrences term text).
Proof.
  intros Hne Hplain. unfold Scorer.contentMatches.
  rewrite (parse_literal term Hplain). unfold match_count, Spec.occurrences.
  now rewrite scan_literal.
Qed.

End RegExpFacts.

(* ================================================================== *)
(** * The scorer against the scoring rule *)

Section ScorerFacts.
Import JsString JsRegExp Scorer.

Lemma queryTerms_nonempty (query term : string) :
  In term (queryTerms query) -> term <> EmptyString.
Proof.
  unfold queryTerms. intros H. apply filter_In in H as [_ H].
  intros ->. discriminate.
Qed.

Lemma score_term_literal (article : Article) (score : Z) (term : string) :
  term <> EmptyString -> no_syntax_char term = true ->
  score_term article score term =
  Returns (score + Spec.term_relevance searchableText Spec.occurrences article term)%Z.
Proof.
  intros Hne Hplain. unfold score_term, Spec.term_relevance, Spec.points.
  rewrite (contentMatches_literal _ _ Hne Hplain). cbn [bind]. f_equal.
  destruct (includes (toLowerCase (title article)) term);
    destruct (includes (toLowerCase (summary article)) term);
    destruct (existsb (fun topic => includes topic term) (topics article)); lia.
Qed.

Lemma score_article_literal (article : Article) (terms : list string) :
  Forall (fun term => term <> EmptyString /\ no_syntax_char term = true) terms ->
  forall score : Z,
    fold_left (fun acc term => score <- acc ;; score_term article score term)
              terms (Returns score)
    = Returns (score + Spec.relevance terms article)%Z.
Proof.
  induction 1 as [|term terms [Hne Hplain] _ IH]; intros score.
  - cbn. f_equal. lia.
  - cbn [fold_left bind]. rewrite (score_term_literal _ _ _ Hne Hplain), IH.
    f_equal. unfold Spec.relevance. cbn [map Spec.sum]. lia.
Qed.

(** The loop over the cache keeps, in cache order, the articles whose
    score is positive. *)
Lemma score_entries_filter (src : option Source) (terms : list string)
      (f : Article -> Z) :
  (forall article, score_article terms article = Returns (f article)) ->
  forall (entries : list (string * Article)) (results : list Hit),
    score_entries src terms entries results =
    Returns (results ++
             map (fun article => hit_of src article (f article))
                 (filter (fun article => (0 <? f article)%Z) (map snd entries))).
Proof.
  intros Hf. induction entries as [|[k article] entries IH]; intros results.
  - cbn. now rewrite app_nil_r.
  - cbn [score_entries]. rewrite Hf. cbn [bind]. rewrite IH.
    cbn [map snd filter]. destruct (0 <? f article)%Z; [|reflexivity].
    now rewrite <- app_assoc.
Qed.

Lemma score_article_query_literal (query : string) (article : Article) :
  Forall (fun term => no_syntax_char term = true) (queryTerms query) ->
  score_article (queryTerms query) article
  = Returns (Spec.relevance (queryTerms query) article).
Proof.
  intros Hplain. unfold score_article.
  rewrite score_article_literal; [reflexivity|].
  apply Forall_forall. intros term Hin. split.
  - eapply queryTerms_nonempty; eassumption.
  - rewrite Forall_forall in Hplain. now apply Hplain.
Qed.

(** A text shorter than the term holds no occurrence of it. *)
Lemma occurrences_short (t : string) :
  forall (s : string) (skip : nat),
    String.length s < String.length t -> Spec.occurrences_from t skip s = 0.
Proof.
  induction s as [|c s IH]; intros skip Hlen; [reflexivity|].
  cbn [Spec.occurrences_from]. destruct skip as [|k].
  - destruct (prefix t (String c s)) eqn:Hp.
    + apply prefix_length in Hp. lia.
    + apply IH. simpl in Hlen. lia.
  - apply IH. simpl in Hlen. lia.
Qed.

(** Text added at the end takes no occurrence away. *)
Lemma occurrences_app (t x : string) :
  forall (s : string) (skip : nat),
    Spec.occurrences_from t skip s <= Spec.occurrences_from t skip (s ++ x).
Proof.
  induction s as [|c s IH]; intros skip; [cbn; lia|].
  change (String c s ++ x)%string with (String c (s ++ x)).
  cbn [Spec.occurrences_from]. destruct skip as [|k]; [|apply IH].
  change (String c (s ++ x)) with (String c s ++ x)%string.
  destruct (prefix t (String c s)) eqn:Hp.
  - rewrite (prefix_app _ _ x Hp). apply le_n_S, IH.
  - destruct (prefix t (String c s ++ x)) eqn:Hpx; [|apply IH].
    rewrite occurrences_short; [lia|].
    apply prefix_app_short in Hpx; [|exact Hp]. simpl in Hpx. lia.
Qed.

Lemma searchableText_append (article : Article) (x : string) :
  searchableText (append_to_body article x)
  = (searchableText article ++ toLowerCase x)%string.
Proof.
  unfold searchableText, append_to_body. cbn [title summary content].
  rewrite <- toLowerCase_app. f_equal.
  now rewrite !append_assoc3.
Qed.

(** The scoring rule is monotonic in the body: text appended to the body
    never lowers the relevance. *)
Lemma relevance_monotone (terms : list string) (article : Article) (x : string) :
  (Spec.relevance terms article <= Spec.relevance terms (append_to_body article x))%Z.
Proof.
  unfold Spec.relevance. induction terms as [|term terms IH]; cbn [map Spec.sum]; [lia|].
  assert (Spec.term_relevance searchableText Spec.occurrences article term
          <= Spec.term_relevance searchableText Spec.occurrences
               (append_to_body article x) term)%Z; [|lia].
  unfold Spec.term_relevance. rewrite searchableText_append.
  cbn [append_to_body title summary topics].
  pose proof (occurrences_app term (toLowerCase x) (searchableText article) 0) as H.
  unfold Spec.occurrences. lia.
Qed.

(** So is the scorer, for a query whose terms hold no syntax character. *)
Lemma score_monotone_literal (query : string) (article : Article) (x : string) :
  Forall (fun term => no_syntax_char term = true) (queryTerms query) ->
  exists before after : Z,
    score_article (queryTerms query) article = Returns before
    /\ score_article (queryTerms query) (append_to_body article x) = Returns after
    /\ (before <= after)%Z.
Proof.
  intros Hplain. do 2 eexists. split; [|split].
  - now apply score_article_query_literal.
  - now apply score_article_query_literal.
  - apply relevance_monotone.
Qed.

Lemma fold_left_throws (article : Article) (terms : list string) :
  fold_left (fun acc term => score <- acc ;; score_term article score term)
            terms ThrowsSyntaxError = ThrowsSyntaxError
  /\ fold_left (fun acc term => score <- acc ;; score_term article score term)
               terms OutsideModel = OutsideModel.
Proof. induction terms as [|term terms [IH1 IH2]]; cbn; auto. Qed.

(** From a score that is not negative the loop over the terms returns,
    when it returns, a score that is not negative. *)
Lemma score_loop_nonneg (article : Article) (terms : list string) :
  forall score result : Z,
    (0 <= score)%Z ->
    fold_left (fun acc term => score <- acc ;; score_term article score term)
              terms (Returns score) = Returns result ->
    (0 <= result)%Z.
Proof.
  induction terms as [|term terms IH]; intros score result Hpos; cbn [fold_left].
  - intros H. injection H as <-. exact Hpos.
  - cbn [bind]. destruct (score_term article score term) as [score'| |] eqn:E.
    + apply IH. unfold score_term in E.
      destruct (contentMatches term (searchableText article)); cbn [bind] in E;
        try discriminate.
      injection E as <-.
      destruct (includes (toLowerCase (title article)) term);
        destruct (includes (toLowerCase (summary article)) term);
        destruct (existsb (fun topic => includes topic term) (topics article)); lia.
    + now rewrite (proj1 (fold_left_throws article terms)).
    + now rewrite (proj2 (fold_left_throws article terms)).
Qed.

(** A score that is returned is not negative. *)
Lemma score_article_nonneg (article : Article) (terms : list string) (result : Z) :
  score_article terms article = Returns result -> (0 <= result)%Z.
Proof. apply score_loop_nonneg. lia. Qed.

End ScorerFacts.

(** C1 (as amended). For a query whose terms (the lowercased query cut at
    single spaces, terms of length at most 2 dropped) hold no syntax character
    of the pattern language, the score of every article is the sum over the
    terms of 5 for a term in the lowercased title, 3 for a term in the
    lowercased summary, 2 for a term in some topic, and the number of
    non-overlapping occurrences of the term in the lowercased text
    "title summary content", capped at 3; and the loop over the cache keeps
    exactly the articles of positive score, in cache order. *)
Theorem relevance_formula (query : string) :
  Forall (fun term => JsRegExp.no_syntax_char term = true) (Scorer.queryTerms query) ->
  (forall article : Article,
      Scorer.score_article (Scorer.queryTerms query) article
      = Returns (Spec.relevance (Scorer.queryTerms query) article))
  /\
  (forall (src : option Source) (entries : list (string * Article)),
      Scorer.score_entries src (Scorer.queryTerms query) entries []
      = Returns
          (map (fun article =>
                  Scorer.hit_of src article
                    (Spec.relevance (Scorer.queryTerms query) article))
               (filter (fun article =>
                          (0 <? Spec.relevance (Scorer.queryTerms query) article)%Z)
                       (map snd entries)))).
Proof.
  intros Hplain.
  assert (forall article : Article,
             Scorer.score_article (Scorer.queryTerms query) article
             = Returns (Spec.relevance (Scorer.queryTerms query) article)) as Hscore
      by (intros article; now apply score_article_query_literal).
  split; [exact Hscore|].
  intros src entries.
  now rewrite (score_entries_filter src _ _ Hscore).
Qed.

Lemma relevance_formula_witness :
  Scorer.score_article (Scorer.queryTerms "Hybrid work") hybrid_guide
  = Returns (Spec.relevance (Scorer.queryTerms "Hybrid work") hybrid_guide).
Proof.
  apply (relevance_formula "Hybrid work").
  repeat constructor.
Defined.

(** C1 (as stated) fails. A query of two words separated by a TAB is one
    term for the code, which finds it nowhere, and two terms for the rule as
    stated, which gives 6; and the term [a.c] is a pattern for the code,
    which finds it once in the title "abc", and occurs nowhere as a string. *)
Lemma stated_formula_fails :
  Scorer.score_article (Scorer.queryTerms ("abc" ++ String TAB "def")) abc_page
  <> Returns (Spec.stated_relevance ("abc" ++ String TAB "def") abc_page)
  /\
  Scorer.score_article (Scorer.queryTerms "a.c") abc_page
  <> Returns (Spec.stated_relevance "a.c" abc_page).
Proof. split; vm_compute; discriminate. Qed.

(** C3. The scorer does not return on the query [c++]: its only term is not
    a pattern, the [RegExp] constructor throws for every article, and so
    does a search of either variant over a cache that is not empty. *)
Theorem scorer_throws_on_quantifiers (article : Article) :
  Scorer.score_article (Scorer.queryTerms "c++") article = ThrowsSyntaxError
  /\ fst (GoogleApp.searchWorklineArticles no_google offline offline "c++" one_article)
     = ThrowsSyntaxError
  /\ fst (CacheApp.searchWorklineArticles offline offline "c++" one_article)
     = ThrowsSyntaxError.
Proof.
  split; [|split].
  - unfold Scorer.score_article. cbn [Scorer.queryTerms]. reflexivity.
  - vm_compute. reflexivity.
  - vm_compute. reflexivity.
Qed.

(** C4. For the term [abc$] the score falls from 1 to 0 when the term is
    appended to the body: the pattern matches "abc" at the end of the text
    only, and the appended text ends with "$". *)
Theorem score_falls_on_appended_pattern :
  Scorer.score_article (Scorer.queryTerms "abc$") abc_body = Returns 1%Z
  /\ Scorer.score_article (Scorer.queryTerms "abc$") (append_to_body abc_body "abc$")
     = Returns 0%Z.
Proof. split; reflexivity. Qed.

(* ================================================================== *)
(** * Facts about the insertion-ordered map *)

Section MapFacts.
Context {V : Type}.
Implicit Types (m : JsMap.t V) (k : string) (v : V).

Lemma get_set_same m k v : JsMap.get (JsMap.set m k v) k = Some v.
Proof.
  induction m as [|[k' v'] m IH]; cbn.
  - now rewrite String.eqb_refl.
  - destruct (String.eqb k' k) eqn:E; cbn.
    + now rewrite String.eqb_refl.
    + now rewrite E.
Qed.

Lemma get_set_other m k v k0 :
  k0 <> k -> JsMap.get (JsMap.set m k v) k0 = JsMap.get m k0.
Proof.
  intros Hne. induction m as [|[k' v'] m IH]; cbn.
  - apply not_eq_sym, String.eqb_neq in Hne. now rewrite Hne.
  - destruct (String.eqb k' k) eqn:E; cbn.
    + apply String.eqb_eq in E as ->.
      apply not_eq_sym, String.eqb_neq in Hne. now rewrite Hne.
    + now rewrite IH.
Qed.

Lemma keys_set m k v k0 :
  In k0 (JsMap.keys (JsMap.set m k v)) <-> k0 = k \/ In k0 (JsMap.keys m).
Proof.
  induction m as [|[k' v'] m IH]; cbn.
  - intuition.
  - destruct (String.eqb k' k) eqn:E; cbn.
    + apply String.eqb_eq in E as ->. intuition.
    + unfold JsMap.keys in IH. rewrite IH. intuition.
Qed.

Lemma in_set m k v k0 v0 :
  In (k0, v0) (JsMap.set m k v) -> (k0 = k /\ v0 = v) \/ In (k0, v0) m.
Proof.
  induction m as [|[k' v'] m IH]; cbn.
  - intros [H|[]]. injection H as <- <-. now left.
  - destruct (String.eqb k' k) eqn:E; cbn.
    + intros [H|H]; [injection H as <- <-; now left | now right; right].
    + intros [H|H]; [now right; left|]. destruct (IH H); [now left | now right; right].
Qed.

Lemma ok_set m k v : JsMap.ok m -> JsMap.ok (JsMap.set m k v).
Proof.
  unfold JsMap.ok. induction m as [|[k' v'] m IH]; cbn; intros Hok.
  - constructor; [intros [] | constructor].
  - inversion Hok as [|? ? Hnotin Hok']; subst.
    destruct (String.eqb k' k) eqn:E; cbn.
    + apply String.eqb_eq in E as ->. now constructor.
    + constructor; [|now apply IH].
      intros Hin. apply keys_set in Hin as [->|Hin]; [|contradiction].
      now rewrite String.eqb_refl in E.
Qed.

Lemma get_none_not_key m k : JsMap.get m k = None <-> ~ In k (JsMap.keys m).
Proof.
  induction m as [|[k' v'] m IH]; cbn.
  - intuition.
  - destruct (String.eqb k' k) eqn:E.
    + apply String.eqb_eq in E as ->. split; [discriminate | intros H; exfalso; auto].
    + apply String.eqb_neq in E. unfold JsMap.keys in IH. rewrite IH. intuition.
Qed.

Lemma fold_left_fixed {A : Type} (f : JsMap.t V -> A -> JsMap.t V) (l : list A) m :
  (forall x m', In x l -> f m' x = m') -> fold_left f l m = m.
Proof.
  revert m; induction l as [|x l IH]; intros m H; cbn; [reflexivity|].
  rewrite (H x m (or_introl eq_refl)). apply IH. intros; apply H; now right.
Qed.

(** A step that keeps a property keeps it along a fold. *)
Lemma fold_left_invariant {A : Type} (P : JsMap.t V -> Prop)
      (f : JsMap.t V -> A -> JsMap.t V) :
  (forall m' x, P m' -> P (f m' x)) ->
  forall (l : list A) m, P m -> P (fold_left f l m).
Proof.
  intros Hstep. induction l as [|x l IH]; intros m Hm; cbn; [exact Hm|].
  apply IH, Hstep, Hm.
Qed.

End MapFacts.

(* ================================================================== *)
(** * Facts about the stable sort *)

Section SortFacts.
Context {A : Type} (cmp : A -> A -> Z).

Lemma insert_sorted_perm (x : A) (l : list A) :
  Permutation (insert_sorted cmp x l) (x :: l).
Proof.
  induction l as [|y l IH]; cbn; [reflexivity|].
  destruct (cmp y x <=? 0)%Z; [|reflexivity].
  rewrite IH. apply perm_swap.
Qed.

Lemma sort_snoc_perm (l sorted : list A) :
  Permutation (sort_snoc cmp sorted l) (sorted ++ l).
Proof.
  revert sorted; induction l as [|x l IH]; intros sorted; cbn.
  - now rewrite app_nil_r.
  - rewrite IH, insert_sorted_perm. apply Permutation_middle.
Qed.

Lemma js_sort_perm (l : list A) : Permutation (js_sort cmp l) l.
Proof. unfold js_sort. apply (sort_snoc_perm l []). Qed.

Lemma js_sort_in (l : list A) (x : A) : In x (js_sort cmp l) <-> In x l.
Proof.
  split; apply Permutation_in; [apply js_sort_perm | symmetry; apply js_sort_perm].
Qed.

Lemma js_sort_length (l : list A) : length (js_sort cmp l) = length l.
Proof. apply Permutation_length, js_sort_perm. Qed.

End SortFacts.

(** Sorting by score puts the results in descending order of score. *)
Lemma insert_sorted_descending (x : Hit) (l : list Hit) :
  descending l -> descending (insert_sorted Scorer.by_score x l).
Proof.
  induction l as [|y l IH]; intros Hl; [exact I|].
  cbn [insert_sorted]. unfold Scorer.by_score at 1.
  destruct (hit_score x - hit_score y <=? 0)%Z eqn:E.
  - apply Z.leb_le in E.
    assert (descending l) as Hl' by (destruct l; [exact I | apply Hl]).
    specialize (IH Hl'). destruct l as [|z l]; cbn [insert_sorted] in *.
    + split; [lia | exact I].
    + unfold Scorer.by_score at 1. unfold Scorer.by_score at 1 in IH.
      destruct (hit_score x - hit_score z <=? 0)%Z.
      * split; [apply Hl | exact IH].
      * split; [lia | exact IH].
  - apply Z.leb_gt in E. split; [lia | exact Hl].
Qed.

Lemma js_sort_descending (l : list Hit) : descending (js_sort Scorer.by_score l).
Proof.
  unfold js_sort. assert (descending []) as H by exact I. revert H.
  generalize (@nil Hit) as sorted.
  induction l as [|x l IH]; intros sorted H; cbn [sort_snoc]; [exact H|].
  apply IH. now apply insert_sorted_descending.
Qed.

(* ================================================================== *)
(** * Facts about scraping and refreshing *)

Section RefreshFacts.
Import JsString Scraper Refresh.

Lemma scrapeArticle_url (w : World) (u : string) : url (scrapeArticle w u) = u.
Proof. unfold scrapeArticle. now destruct (http_get w u). Qed.

Lemma cache_wf_set (cache : JsMap.t Article) (k : string) (article : Article) :
  cache_wf cache -> url article = k -> title article <> "Article" ->
  cache_wf (JsMap.set cache k article).
Proof.
  intros Hwf Hurl Htitle k0 a0 Hin.
  apply in_set in Hin as [[-> ->]|Hin]; [now split | now apply Hwf].
Qed.

Lemma store_scraped_wf (cache : JsMap.t Article) (article : Article) :
  cache_wf cache -> cache_wf (store_scraped cache article).
Proof.
  intros Hwf. unfold store_scraped.
  destruct (String.eqb (title article) "Article") eqn:E; cbn; [exact Hwf|].
  apply cache_wf_set; [exact Hwf | reflexivity | now apply String.eqb_neq].
Qed.

Lemma store_scraped_ok (cache : JsMap.t Article) (article : Article) :
  JsMap.ok cache -> JsMap.ok (store_scraped cache article).
Proof.
  intros Hok. unfold store_scraped.
  destruct (negb (String.eqb (title article) "Article")); [now apply ok_set | exact Hok].
Qed.

Lemma store_scraped_keys (k : string) (cache : JsMap.t Article) (article : Article) :
  In k (JsMap.keys cache) -> In k (JsMap.keys (store_scraped cache article)).
Proof.
  intros Hin. unfold store_scraped.
  destruct (negb (String.eqb (title article) "Article")); [|exact Hin].
  apply keys_set. now right.
Qed.

(** Whatever a turn of the loop keeps, the loop keeps. *)
Lemma refresh_loop_invariant (P : JsMap.t Article -> Prop) :
  (forall cache article, P cache -> P (store_scraped cache article)) ->
  forall (turns : nat) (w : World) (urls : list string) (i : nat)
         (cache : JsMap.t Article),
    P cache -> P (refresh_loop turns w urls i cache).
Proof.
  intros Hstep. induction turns as [|turns IH]; intros w urls i cache Hc;
    cbn [refresh_loop].
  - exact Hc.
  - destruct (i <? Nat.min (length urls) 20); [|exact Hc].
    apply IH. now apply fold_left_invariant.
Qed.

(** The loop test fails once [i] has reached 20, so the ten turns of
    [max_turns] are all the loop can make from 0. *)
Lemma refresh_loop_enough (extra : nat) (w : World) (urls : list string) :
  forall (turns i : nat) (cache : JsMap.t Article),
    20 <= i + batchSize * turns ->
    refresh_loop (turns + extra) w urls i cache = refresh_loop turns w urls i cache.
Proof.
  induction turns as [|turns IH]; intros i cache Hi.
  - cbn [Nat.add]. destruct extra as [|extra]; [reflexivity|].
    cbn [refresh_loop].
    replace (i <? Nat.min (length urls) 20) with false; [reflexivity|].
    symmetry. apply Nat.ltb_ge. unfold batchSize in Hi. lia.
  - cbn [Nat.add refresh_loop].
    destruct (i <? Nat.min (length urls) 20); [|reflexivity].
    apply IH. unfold batchSize in *. lia.
Qed.

Lemma refresh_loop_complete (extra : nat) (w : World) (urls : list string)
      (cache : JsMap.t Article) :
  refresh_loop (max_turns + extra) w urls 0 cache = refresh_loop max_turns w urls 0 cache.
Proof. apply refresh_loop_enough. unfold batchSize, max_turns. lia. Qed.

Lemma refresh_wf (w : World) (s : State) :
  cache_wf (articleCache s) -> cache_wf (articleCache (refreshArticleCache w s)).
Proof.
  intros Hwf. unfold refreshArticleCache.
  destruct (http_get w INDEX_URL); [|exact Hwf]. cbn [articleCache].
  apply refresh_loop_invariant; [apply store_scraped_wf | exact Hwf].
Qed.

Lemma refresh_ok (w : World) (s : State) :
  JsMap.ok (articleCache s) -> JsMap.ok (articleCache (refreshArticleCache w s)).
Proof.
  intros Hok. unfold refreshArticleCache.
  destruct (http_get w INDEX_URL); [|exact Hok]. cbn [articleCache].
  apply refresh_loop_invariant; [apply store_scraped_ok | exact Hok].
Qed.

Lemma refresh_keys (w : World) (s : State) (k : string) :
  In k (JsMap.keys (articleCache s)) ->
  In k (JsMap.keys (articleCache (refreshArticleCache w s))).
Proof.
  intros Hin. unfold refreshArticleCache.
  destruct (http_get w INDEX_URL); [|exact Hin]. cbn [articleCache].
  apply (refresh_loop_invariant (fun cache => In k (JsMap.keys cache)));
    [intros; now apply store_scraped_keys | exact Hin].
Qed.

End RefreshFacts.

(* ================================================================== *)
(** * Facts about the Google phase *)

Section GoogleFacts.
Import JsString Scraper Refresh GoogleApp.

Lemma store_fresh_wf (w : World) (cache : JsMap.t Article) (item : Item) :
  cache_wf cache -> cache_wf (store_fresh w cache item).
Proof.
  intros Hwf. unfold store_fresh.
  destruct (String.eqb (title (scrapeArticle w (link item))) "Article") eqn:E;
    cbn; [exact Hwf|].
  apply cache_wf_set;
    [exact Hwf | apply scrapeArticle_url | now apply String.eqb_neq].
Qed.

Lemma store_fresh_ok (w : World) (cache : JsMap.t Article) (item : Item) :
  JsMap.ok cache -> JsMap.ok (store_fresh w cache item).
Proof.
  intros Hok. unfold store_fresh.
  destruct (negb (String.eqb (title (scrapeArticle w (link item))) "Article"));
    [now apply ok_set | exact Hok].
Qed.

Lemma store_fresh_keys (k : string) (w : World) (cache : JsMap.t Article) (item : Item) :
  In k (JsMap.keys cache) -> In k (JsMap.keys (store_fresh w cache item)).
Proof.
  intros Hin. unfold store_fresh.
  destruct (negb (String.eqb (title (scrapeArticle w (link item))) "Article"));
    [|exact Hin].
  apply keys_set. now right.
Qed.

(** Whatever a store of a fresh scrape keeps, [searchWithGoogle] keeps. *)
Lemma searchWithGoogle_invariant (P : JsMap.t Article -> Prop) :
  (forall w cache item, P cache -> P (store_fresh w cache item)) ->
  forall (cfg : Config) (w : World) (query : string) (s : State),
    P (articleCache s) -> P (articleCache (snd (searchWithGoogle cfg w query s))).
Proof.
  intros Hstep cfg w query s Hs. unfold searchWithGoogle.
  destruct (negb (truthy_opt (GOOGLE_API_KEY cfg)) || negb (truthy_opt (GOOGLE_CSE_ID cfg)));
    [exact Hs|].
  destruct (google_get w query); try exact Hs. cbn.
  apply fold_left_invariant; [intros; now apply Hstep | exact Hs].
Qed.

Lemma searchWithGoogle_time (cfg : Config) (w : World) (query : string) (s : State) :
  lastCacheTime (snd (searchWithGoogle cfg w query s)) = lastCacheTime s.
Proof.
  unfold searchWithGoogle.
  destruct (negb (truthy_opt (GOOGLE_API_KEY cfg)) || negb (truthy_opt (GOOGLE_CSE_ID cfg)));
    [reflexivity|].
  now destruct (google_get w query).
Qed.

(** The state in which [searchWorklineArticles] leaves the variables. *)
Lemma google_search_state (cfg : Config) (wg wc : World) (query : string) (s : State) :
  snd (searchWorklineArticles cfg wg wc query s) =
  let s1 := snd (searchWithGoogle cfg wg query s) in
  if is_stale wc s1 then refreshArticleCache wc s1 else s1.
Proof.
  unfold searchWorklineArticles, searchCachedArticles.
  now destruct (searchWithGoogle cfg wg query s).
Qed.

Lemma google_search_invariant (P : JsMap.t Article -> Prop) :
  (forall w cache item, P cache -> P (store_fresh w cache item)) ->
  (forall w s, P (articleCache s) -> P (articleCache (refreshArticleCache w s))) ->
  forall (cfg : Config) (wg wc : World) (query : string) (s : State),
    P (articleCache s) ->
    P (articleCache (snd (searchWorklineArticles cfg wg wc query s))).
Proof.
  intros Hfresh Hrefresh cfg wg wc query s Hs.
  rewrite google_search_state. cbv zeta.
  pose proof (searchWithGoogle_invariant P Hfresh cfg wg query s Hs) as H1.
  destruct (is_stale wc _); [now apply Hrefresh | exact H1].
Qed.

End GoogleFacts.

Section CacheAppFacts.
Import Refresh.

Lemma cache_search_state (w1 w2 : World) (query : string) (s : State) :
  snd (CacheApp.searchWorklineArticles w1 w2 query s) =
  let s1 := if is_stale w1 s then refreshArticleCache w1 s else s in
  if JsMap.size (articleCache s1) =? 0 then refreshArticleCache w2 s1 else s1.
Proof. reflexivity. Qed.

Lemma cache_search_invariant (P : JsMap.t Article -> Prop) :
  (forall w s, P (articleCache s) -> P (articleCache (refreshArticleCache w s))) ->
  forall (w1 w2 : World) (query : string) (s : State),
    P (articleCache s) ->
    P (articleCache (snd (CacheApp.searchWorklineArticles w1 w2 query s))).
Proof.
  intros Hrefresh w1 w2 query s Hs. rewrite cache_search_state. cbv zeta.
  assert (P (articleCache (if is_stale w1 s then refreshArticleCache w1 s else s))) as H1
      by (destruct (is_stale w1 s); [now apply Hrefresh | exact Hs]).
  destruct (JsMap.size _ =? 0); [now apply Hrefresh | exact H1].
Qed.

End CacheAppFacts.

(* ================================================================== *)
(** * The cache across refresh and search *)

(** C2. When the index page cannot be fetched or parsed, the refresh ends
    in its [catch] branch: the cache and [lastCacheTime] are what they
    were. *)
Theorem refresh_aborts_on_index_failure (w : World) (s : State) :
  http_get w Refresh.INDEX_URL = None ->
  Refresh.refreshArticleCache w s = s.
Proof.
  intros Hfail. unfold Refresh.refreshArticleCache. now rewrite Hfail.
Qed.

Lemma refresh_aborts_on_index_failure_witness :
  Refresh.refreshArticleCache offline one_article = one_article.
Proof.
  apply (refresh_aborts_on_index_failure offline one_article).
  reflexivity.
Defined.

(** C7. A URL that is a key of the cache is still one after a refresh,
    whatever the index page lists, and after a search of either variant. *)
Theorem cache_keys_grow (s : State) (k : string) :
  In k (JsMap.keys (articleCache s)) ->
  (forall w : World,
      In k (JsMap.keys (articleCache (Refresh.refreshArticleCache w s))))
  /\ (forall (cfg : Config) (wg wc : World) (query : string),
         In k (JsMap.keys (articleCache
                 (snd (GoogleApp.searchWorklineArticles cfg wg wc query s)))))
  /\ (forall (w1 w2 : World) (query : string),
         In k (JsMap.keys (articleCache
                 (snd (CacheApp.searchWorklineArticles w1 w2 query s))))).
Proof.
  intros Hin. split; [|split].
  - intros w. now apply refresh_keys.
  - intros cfg wg wc query.
    apply (google_search_invariant (fun cache => In k (JsMap.keys cache))).
    + intros; now apply store_fresh_keys.
    + intros; now apply refresh_keys.
    + exact Hin.
  - intros w1 w2 query.
    apply (cache_search_invariant (fun cache => In k (JsMap.keys cache))).
    + intros; now apply refresh_keys.
    + exact Hin.
Qed.

(** The index page of [online] does not list the cached article; the
    refresh keeps it. *)
Lemma cache_keys_grow_witness :
  In (url hybrid_guide)
     (JsMap.keys (articleCache (Refresh.refreshArticleCache online one_article))).
Proof.
  apply (cache_keys_grow one_article (url hybrid_guide)).
  left. reflexivity.
Defined.

(** The representation invariant of the map holds throughout. *)
Lemma cache_ok_preserved (s : State) :
  JsMap.ok (articleCache s) ->
  (forall w : World, JsMap.ok (articleCache (Refresh.refreshArticleCache w s)))
  /\ (forall (cfg : Config) (wg wc : World) (query : string),
         JsMap.ok (articleCache
                     (snd (GoogleApp.searchWorklineArticles cfg wg wc query s))))
  /\ (forall (w1 w2 : World) (query : string),
         JsMap.ok (articleCache
                     (snd (CacheApp.searchWorklineArticles w1 w2 query s)))).
Proof.
  intros Hok. split; [|split].
  - intros w. now apply refresh_ok.
  - intros cfg wg wc query.
    apply (google_search_invariant JsMap.ok);
      [intros; now apply store_fresh_ok | intros; now apply refresh_ok | exact Hok].
  - intros w1 w2 query.
    apply (cache_search_invariant JsMap.ok);
      [intros; now apply refresh_ok | exact Hok].
Qed.

Lemma initial_cache_wf : cache_wf (articleCache initial_state).
Proof. intros k article []. Qed.

(** C10. A well-formed cache (every record filed under its own URL, none
    titled "Article") stays well formed across a refresh and across a
    search of either variant. *)
Theorem cache_wf_preserved (s : State) :
  cache_wf (articleCache s) ->
  (forall w : World, cache_wf (articleCache (Refresh.refreshArticleCache w s)))
  /\ (forall (cfg : Config) (wg wc : World) (query : string),
         cache_wf (articleCache
                     (snd (GoogleApp.searchWorklineArticles cfg wg wc query s))))
  /\ (forall (w1 w2 : World) (query : string),
         cache_wf (articleCache
                     (snd (CacheApp.searchWorklineArticles w1 w2 query s)))).
Proof.
  intros Hwf. split; [|split].
  - intros w. now apply refresh_wf.
  - intros cfg wg wc query.
    apply (google_search_invariant cache_wf);
      [intros; now apply store_fresh_wf | intros; now apply refresh_wf | exact Hwf].
  - intros w1 w2 query.
    apply (cache_search_invariant cache_wf);
      [intros; now apply refresh_wf | exact Hwf].
Qed.

Lemma cache_wf_preserved_witness :
  cache_wf (articleCache
              (snd (GoogleApp.searchWorklineArticles with_google online online
                      "change management" initial_state))).
Proof.
  apply (cache_wf_preserved initial_state).
  intros k article [].
Defined.

(* ================================================================== *)
(** * The result list *)

(** C9. A search that returns, in either variant, returns at most five
    results. *)
Theorem search_returns_at_most_five
        (cfg : Config) (wg wc w1 w2 : World) (query : string) (s : State) :
  (forall results : list Hit,
      fst (GoogleApp.searchWorklineArticles cfg wg wc query s) = Returns results ->
      length results <= 5)
  /\ (forall results : list Hit,
         fst (CacheApp.searchWorklineArticles w1 w2 query s) = Returns results ->
         length results <= 5).
Proof.
  split; intros results.
  - unfold GoogleApp.searchWorklineArticles.
    destruct (GoogleApp.searchWithGoogle cfg wg query s) as [googleResults s1].
    destruct (GoogleApp.searchCachedArticles wc query s1) as [[cacheResults| |] s2];
      cbn [fst bind]; intros H; try discriminate.
    replace results
      with (firstn 5 (js_sort Scorer.by_score
                        (GoogleApp.merge_results googleResults cacheResults)))
      by congruence.
    apply firstn_le_length.
  - unfold CacheApp.searchWorklineArticles. cbv zeta. cbn [fst].
    destruct (Scorer.score_entries None _ _ _) as [r| |]; cbn [bind];
      intros H; try discriminate.
    replace results with (firstn 5 (js_sort Scorer.by_score r)) by congruence.
    apply firstn_le_length.
Qed.

Lemma search_returns_at_most_five_witness :
  exists results : list Hit,
    fst (GoogleApp.searchWorklineArticles with_google online online "abc" crowded)
    = Returns results
    /\ length results <= 5.
Proof.
  eexists. split.
  - vm_compute. reflexivity.
  - apply (proj1 (search_returns_at_most_five with_google online online online online
                    "abc" crowded)).
    vm_compute. reflexivity.
Defined.

Section MergeFacts.
Import GoogleApp.

Lemma firstn_in {A : Type} (n : nat) (l : list A) (x : A) :
  In x (firstn n l) -> In x l.
Proof.
  revert l; induction n as [|n IH]; intros [|y l]; cbn; try tauto.
  intros [->|H]; [now left | right; now apply IH].
Qed.

Lemma firstn_nodup {A : Type} (n : nat) (l : list A) :
  NoDup l -> NoDup (firstn n l).
Proof.
  revert l; induction n as [|n IH]; intros [|y l] H; cbn; try constructor.
  - inversion H; subst. intros Hin. now apply firstn_in in Hin.
  - inversion H; subst. now apply IH.
Qed.

Lemma url_known (allResults : list Hit) (h : Hit) :
  existsb (fun result => String.eqb (hit_url result) (hit_url h)) allResults = true
  <-> In (hit_url h) (map hit_url allResults).
Proof.
  rewrite existsb_exists, in_map_iff. split.
  - intros [x [Hx E]]. apply String.eqb_eq in E. now exists x.
  - intros [x [E Hx]]. exists x. split; [exact Hx | now apply String.eqb_eq].
Qed.

(** An element of the merged list is a Google hit, or a cache hit whose
    URL no Google hit has. *)
Lemma merge_results_in (cacheResults : list Hit) :
  forall (googleResults : list Hit) (h : Hit),
    In h (merge_results googleResults cacheResults) ->
    In h googleResults
    \/ (In h cacheResults /\ ~ In (hit_url h) (map hit_url googleResults)).
Proof.
  unfold merge_results.
  induction cacheResults as [|c rest IH]; intros acc h Hin; cbn in Hin.
  - now left.
  - destruct (existsb _ acc) eqn:E.
    + destruct (IH _ _ Hin) as [H|[H1 H2]]; [now left | right; split; [now right | exact H2]].
    + assert (~ In (hit_url c) (map hit_url acc)) as Hc.
      { intros H. apply url_known in H. congruence. }
      destruct (IH _ _ Hin) as [H|[H1 H2]].
      * apply in_app_or in H as [H|[<-|[]]]; [now left|].
        right. split; [now left | exact Hc].
      * right. split; [now right|].
        intros H. apply H2. rewrite map_app. apply in_or_app. now left.
Qed.




(** The value [searchWorklineArticles] returns, from the two lists. *)
Lemma google_search_value (cfg : Config) (wg wc : World) (query : string)
      (s : State) (results : list Hit) :
  fst (searchWorklineArticles cfg wg wc query s) = Returns results ->
  exists cacheResults : list Hit,
    fst (searchCachedArticles wc query (snd (searchWithGoogle cfg wg query s)))
    = Returns cacheResults
    /\ results = firstn 5 (js_sort Scorer.by_score
                             (merge_results (fst (searchWithGoogle cfg wg query s))
                                            cacheResults)).
Proof.
  unfold searchWorklineArticles.
  destruct (searchWithGoogle cfg wg query s) as [googleResults s1]. cbn [fst snd].
  destruct (searchCachedArticles wc query s1) as [[cacheResults| |] s2];
    cbn [fst bind]; intros H; try discriminate.
  exists cacheResults. split; [reflexivity | congruence].
Qed.

End MergeFacts.




(* ================================================================== *)
(** * The title of a scraped article *)

(** C8 (as amended). The title of the record [scrapeArticle] returns has at
    most 150 code units; it is the placeholder "Article" when the page
    cannot be fetched or parsed; and it is the empty string when the page
    loads and the heading, the page title and the title-classed element
    all come out empty. *)
Theorem scraped_title (w : World) (u : string) :
  String.length (title (Scraper.scrapeArticle w u)) <= 150
  /\ (http_get w u = None -> title (Scraper.scrapeArticle w u) = "Article")
  /\ (forall doc : Document,
         http_get w u = Some doc ->
         JsString.trim (sel_first_text doc "h1") = EmptyString ->
         JsString.trim
           (JsString.replace " | The Workline" EmptyString
              (JsString.replace " | FlexOS" EmptyString (sel_text doc "title")))
         = EmptyString ->
         JsString.trim (sel_first_text doc (Scraper.attr_sel "[class*=" "title"))
         = EmptyString ->
         title (Scraper.scrapeArticle w u) = EmptyString).
Proof.
  unfold Scraper.scrapeArticle. split; [|split].
  - destruct (http_get w u) as [doc|]; cbn [title Scraper.extract Scraper.placeholder].
    + apply substring0_length.
    + cbn. lia.
  - intros ->. reflexivity.
  - intros doc -> H1 H2 H3. cbn [title Scraper.extract].
    apply substring0_nil. unfold Scraper.extract_title. now rewrite H1, H2, H3.
Qed.

Lemma scraped_title_witness :
  title (Scraper.scrapeArticle offline change_url) = "Article".
Proof.
  apply (scraped_title offline change_url).
  reflexivity.
Defined.

(** C8 (as stated) fails. The page at [blank_url] loads and has no heading,
    no page title and no title-classed element: the record has the empty
    title, not the placeholder. *)
Lemma blank_page_has_empty_title :
  http_get online blank_url = Some blank_page
  /\ title (Scraper.scrapeArticle online blank_url) = EmptyString
  /\ title (Scraper.scrapeArticle online blank_url) <> "Article".
Proof.
  split; [reflexivity|]. split; [reflexivity|].
  vm_compute. discriminate.
Qed.

(* ================================================================== *)
(** * Searching twice *)

Section SearchTwice.
Import JsString Scraper Refresh GoogleApp.

Lemma store_fresh_get (w : World) (cache : JsMap.t Article) (item : Item) (k : string) :
  JsMap.get (store_fresh w cache item) k =
  if String.eqb (link item) k && storable w k
  then Some (scrapeArticle w k) else JsMap.get cache k.
Proof.
  unfold store_fresh, storable. destruct (String.eqb (link item) k) eqn:E.
  - apply String.eqb_eq in E as <-. cbn [andb].
    destruct (negb _); [apply get_set_same | reflexivity].
  - cbn [andb]. apply String.eqb_neq in E.
    destruct (negb _); [|reflexivity].
    apply get_set_other. congruence.
Qed.

Lemma fold_store_fresh_get (w : World) (k : string) (items : list Item) :
  forall cache : JsMap.t Article,
    JsMap.get (fold_left (store_fresh w) items cache) k =
    if existsb (fun item => String.eqb (link item) k && storable w k) items
    then Some (scrapeArticle w k) else JsMap.get cache k.
Proof.
  induction items as [|item items IH]; intros cache; cbn [fold_left existsb].
  - reflexivity.
  - rewrite IH, store_fresh_get.
    destruct (existsb _ items); [now rewrite orb_true_r|].
    now rewrite orb_false_r.
Qed.

(** What the cache holds for a Google item once the scrapes of
    [searchWithGoogle] have completed, in whatever order. *)
Lemma get_after_scrapes (w : World) (cache : JsMap.t Article) (top : list Item)
      (item : Item) :
  In item top ->
  JsMap.get
    (fold_left (store_fresh w)
       (js_sort (by_latency w) (filter (fun item => negb (is_cached cache item)) top))
       cache)
    (link item)
  = match JsMap.get cache (link item) with
    | Some articleData => Some articleData
    | None => if storable w (link item)
              then Some (scrapeArticle w (link item)) else None
    end.
Proof.
  intros Hin. rewrite fold_store_fresh_get.
  destruct (JsMap.get cache (link item)) as [articleData|] eqn:Hget.
  - replace (existsb _ _) with false; [reflexivity|].
    symmetry. apply not_true_is_false. intros H.
    apply existsb_exists in H as [x [Hx H]].
    apply js_sort_in, filter_In in Hx as [_ Hx].
    apply andb_true_iff in H as [H _]. apply String.eqb_eq in H.
    unfold is_cached in Hx. rewrite H, Hget in Hx. discriminate.
  - destruct (storable w (link item)) eqn:Hst.
    + replace (existsb _ _) with true; [reflexivity|].
      symmetry. apply existsb_exists. exists item. split.
      * apply js_sort_in, filter_In. split; [exact Hin|].
        unfold is_cached. now rewrite Hget.
      * now rewrite String.eqb_refl.
    + replace (existsb _ _) with false; [reflexivity|].
      symmetry. apply not_true_is_false. intros H.
      apply existsb_exists in H as [x [_ H]].
      apply andb_true_iff in H as [_ H]. congruence.
Qed.

(** A second [searchWithGoogle] that gets the same answers returns the
    same hits and stores nothing. *)
Lemma searchWithGoogle_again (cfg : Config) (w1 w2 : World) (query : string)
      (s : State) :
  google_get w1 query = google_get w2 query ->
  (forall u : string, scrapeArticle w1 u = scrapeArticle w2 u) ->
  searchWithGoogle cfg w2 query (snd (searchWithGoogle cfg w1 query s))
  = searchWithGoogle cfg w1 query s.
Proof.
  intros Hgoogle Hscrape. unfold searchWithGoogle. rewrite <- Hgoogle.
  destruct (negb _ || negb _); [reflexivity|].
  destruct (google_get w1 query) as [| |items]; try reflexivity.
  cbn [snd articleCache lastCacheTime].
  set (top := firstn 5 items). set (cache := articleCache s).
  set (cache1 := fold_left (store_fresh w1) _ cache).
  assert (forall item, In item top ->
            JsMap.get cache1 (link item)
            = match JsMap.get cache (link item) with
              | Some articleData => Some articleData
              | None => if storable w1 (link item)
                        then Some (scrapeArticle w1 (link item)) else None
              end) as Hget
      by (intros item Hin; now apply get_after_scrapes).
  f_equal.
  - apply map_ext_in. intros item Hin. f_equal.
    unfold article_data. rewrite (Hget item Hin).
    destruct (JsMap.get cache (link item)); [reflexivity|].
    destruct (storable w1 (link item)); [reflexivity | symmetry; apply Hscrape].
  - f_equal. apply fold_left_fixed. intros item m' Hin.
    apply js_sort_in, filter_In in Hin as [Hin Hnot].
    unfold is_cached in Hnot. rewrite (Hget item Hin) in Hnot.
    destruct (JsMap.get cache (link item)); [discriminate|].
    destruct (storable w1 (link item)) eqn:Hst; [discriminate|].
    unfold store_fresh. rewrite <- Hscrape.
    unfold storable in Hst. now rewrite Hst.
Qed.

Lemma is_stale_time (w : World) (s s' : State) :
  lastCacheTime s = lastCacheTime s' -> is_stale w s = is_stale w s'.
Proof. unfold is_stale. now intros ->. Qed.

End SearchTwice.

(** C6. Two searches for the same query, both inside the staleness window
    of the state the first one starts from, return the same outcome: in the
    Google-enabled variant when Google and the pages of its hits answer the
    second search as they answered the first, even if the first search added
    those pages to the cache; in the cache-only variant when the cache is not
    empty, so that neither search starts a refresh. *)
Theorem search_twice_same_output
        (cfg : Config) (wg1 wg2 wc1 wc2 wr1 wr2 : World) (query : string) (s : State) :
  Refresh.is_stale wc1 s = false ->
  Refresh.is_stale wc2 s = false ->
  (google_get wg1 query = google_get wg2 query ->
   (forall u : string, Scraper.scrapeArticle wg1 u = Scraper.scrapeArticle wg2 u) ->
   let first := GoogleApp.searchWorklineArticles cfg wg1 wc1 query s in
   fst (GoogleApp.searchWorklineArticles cfg wg2 wc2 query (snd first)) = fst first)
  /\
  (JsMap.size (articleCache s) <> 0 ->
   let first := CacheApp.searchWorklineArticles wc1 wr1 query s in
   fst (CacheApp.searchWorklineArticles wc2 wr2 query (snd first)) = fst first).
Proof.
  intros Hfresh1 Hfresh2. split.
  - intros Hgoogle Hscrape first.
    assert (snd first = snd (GoogleApp.searchWithGoogle cfg wg1 query s)) as Hstate.
    { unfold first. rewrite google_search_state. cbv zeta.
      rewrite (is_stale_time wc1 _ s (searchWithGoogle_time _ _ _ _)).
      now rewrite Hfresh1. }
    rewrite Hstate. unfold first, GoogleApp.searchWorklineArticles.
    rewrite (searchWithGoogle_again cfg wg1 wg2 query s Hgoogle Hscrape).
    destruct (GoogleApp.searchWithGoogle cfg wg1 query s) as [googleResults s1] eqn:E.
    assert (lastCacheTime s1 = lastCacheTime s) as Htime
        by (change s1 with (snd (googleResults, s1)); rewrite <- E;
            apply searchWithGoogle_time).
    unfold GoogleApp.searchCachedArticles.
    rewrite (is_stale_time wc1 s1 s Htime), (is_stale_time wc2 s1 s Htime).
    now rewrite Hfresh1, Hfresh2.
  - intros Hsize first. unfold first, CacheApp.searchWorklineArticles. cbv zeta.
    cbn [fst snd]. rewrite Hfresh1.
    apply Nat.eqb_neq in Hsize. rewrite Hsize. rewrite Hfresh2, Hsize.
    reflexivity.
Qed.

Lemma search_twice_same_output_witness :
  let first := GoogleApp.searchWorklineArticles with_google online online
                 "change management" one_article in
  fst (GoogleApp.searchWorklineArticles with_google online online
         "change management" (snd first)) = fst first.
Proof.
  apply (proj1 (search_twice_same_output with_google online online online online
                  offline offline "change management" one_article
                  eq_refl eq_refl)).
  - reflexivity.
  - intros u. reflexivity.
Defined.

(* ================================================================== *)
(** * The link discoverer *)

Section DiscoverFacts.
Import JsString Scraper Refresh.

Lemma set_add_nodup (urls : list string) (href : string) :
  NoDup urls -> NoDup (set_add urls href).
Proof.
  intros Hnd. unfold set_add. destruct (existsb (String.eqb href) urls) eqn:E; [exact Hnd|].
  apply (Permutation_NoDup (Permutation_cons_append _ _)). constructor; [|exact Hnd].
  intros Hin. assert (existsb (String.eqb href) urls = true) as E'.
  { apply existsb_exists. exists href. split; [exact Hin | apply String.eqb_refl]. }
  congruence.
Qed.

Lemma set_add_in (urls : list string) (href u : string) :
  In u (set_add urls href) -> u = href \/ In u urls.
Proof.
  unfold set_add. destruct (existsb (String.eqb href) urls); [now right|].
  intros Hin. apply in_app_or in Hin as [H|[<-|[]]]; [now right | now left].
Qed.

Lemma visit_link_keeps (urls : list string) (href : option string) :
  NoDup urls /\ Forall article_url urls ->
  NoDup (visit_link urls href) /\ Forall article_url (visit_link urls href).
Proof.
  intros [Hnd Hall]. unfold visit_link.
  destruct href as [href|]; [|now split].
  destruct (truthy href); [|now split].
  set (full := if startsWith href "/" then _ else href).
  destruct (includes full "workline") eqn:E1; [|now split].
  destruct (String.eqb full INDEX_URL) eqn:E2; [now split|].
  destruct (includes full "#") eqn:E3; [now split|].
  destruct (includes full "mailto:") eqn:E4; [now split|].
  cbn [negb andb]. split; [now apply set_add_nodup|].
  apply Forall_forall. intros u Hin. apply set_add_in in Hin as [->|Hin].
  - repeat split; try assumption. now apply String.eqb_neq.
  - rewrite Forall_forall in Hall. now apply Hall.
Qed.

End DiscoverFacts.

(** X1. The link discoverer returns no URL twice, and every URL it returns
    contains "workline", is not the index page itself, and holds neither a
    fragment marker nor "mailto:". *)
Theorem discover_urls (doc : Document) :
  NoDup (Refresh.discover doc) /\ Forall article_url (Refresh.discover doc).
Proof.
  unfold Refresh.discover.
  assert (NoDup (@nil string) /\ Forall article_url []) as Hstart
      by (split; constructor).
  revert Hstart. generalize (@nil string) as urls.
  induction Refresh.linkSelectors as [|selector rest IH]; intros urls Hurls;
    cbn [fold_left]; [exact Hurls|].
  apply IH. clear IH. revert urls Hurls.
  induction (sel_each_attr doc selector "href") as [|href hrefs IH];
    intros urls Hurls; cbn [fold_left]; [exact Hurls|].
  apply IH. now apply visit_link_keeps.
Qed.

(* ================================================================== *)
(** * What a refresh stores *)

Section RefreshEffect.
Import JsString Scraper Refresh.

Lemma firstn_add_skipn {A : Type} (a b : nat) (l : list A) :
  firstn (a + b) l = firstn a l ++ firstn b (skipn a l).
Proof.
  revert l; induction a as [|a IH]; intros l; [reflexivity|].
  destruct l as [|x l]; cbn [Nat.add firstn skipn app].
  - now rewrite firstn_nil.
  - now rewrite IH.
Qed.

Lemma skipn_add {A : Type} (a b : nat) (l : list A) :
  skipn (a + b) l = skipn b (skipn a l).
Proof.
  revert l; induction a as [|a IH]; intros l; [reflexivity|].
  destruct l as [|x l]; cbn [Nat.add skipn]; [now destruct b | apply IH].
Qed.

Lemma slice_app {A : Type} (i j k : nat) (l : list A) :
  i <= j -> j <= k -> slice i j l ++ slice j k l = slice i k l.
Proof.
  intros Hij Hjk. unfold slice.
  replace (k - i) with ((j - i) + (k - j)) by lia.
  rewrite firstn_add_skipn. f_equal. f_equal.
  replace j with (i + (j - i)) at 1 by lia. apply skipn_add.
Qed.

Lemma slice_empty {A : Type} (i j : nat) (l : list A) :
  j <= i \/ length l <= i -> slice i j l = [].
Proof.
  unfold slice. intros [H|H].
  - now replace (j - i) with 0 by lia.
  - rewrite skipn_all2 by exact H. apply firstn_nil.
Qed.

(** The loop stores, in order, the scrapes of the URLs from index [i] up
    to index 20. *)
Lemma refresh_loop_fold (w : World) (urls : list string) :
  forall (turns i : nat) (cache : JsMap.t Article),
    Nat.even i = true -> i <= 20 ->
    refresh_loop turns w urls i cache
    = fold_left store_scraped
        (map (scrapeArticle w) (slice i (Nat.min (i + batchSize * turns) 20) urls))
        cache.
Proof.
  induction turns as [|turns IH]; intros i cache Heven Hi.
  - cbn [refresh_loop]. rewrite slice_empty; [reflexivity|]. left. lia.
  - cbn [refresh_loop]. destruct (i <? Nat.min (length urls) 20) eqn:E.
    + apply Nat.ltb_lt in E.
      assert (i + batchSize <= 20) as Hnext.
      { apply Nat.even_spec in Heven as [m ->]. unfold batchSize. lia. }
      rewrite IH.
      * rewrite <- fold_left_app, <- map_app. f_equal. f_equal.
        replace (i + batchSize + batchSize * turns) with (i + batchSize * S turns) by lia.
        apply slice_app; unfold batchSize in *; lia.
      * unfold batchSize. replace (i + 2) with (S (S i)) by lia. exact Heven.
      * exact Hnext.
    + apply Nat.ltb_ge in E. rewrite slice_empty; [reflexivity|]. lia.
Qed.

Lemma refresh_cache_fold (w : World) (s : State) (doc : Document) :
  http_get w INDEX_URL = Some doc ->
  articleCache (refreshArticleCache w s)
  = fold_left store_scraped
      (map (scrapeArticle w) (firstn 20 (discover doc))) (articleCache s).
Proof.
  intros Hdoc. unfold refreshArticleCache. rewrite Hdoc. cbn [articleCache].
  rewrite refresh_loop_fold by (cbn; lia).
  unfold slice, max_turns, batchSize. cbn [Nat.add Nat.mul Nat.min Nat.sub skipn].
  reflexivity.
Qed.

Lemma store_scraped_get (w : World) (cache : JsMap.t Article) (u k : string) :
  JsMap.get (store_scraped cache (scrapeArticle w u)) k =
  if String.eqb u k && GoogleApp.storable w k
  then Some (scrapeArticle w k) else JsMap.get cache k.
Proof.
  unfold store_scraped, GoogleApp.storable. rewrite scrapeArticle_url.
  destruct (String.eqb u k) eqn:E.
  - apply String.eqb_eq in E as <-. cbn [andb].
    destruct (negb _); [apply get_set_same | reflexivity].
  - cbn [andb]. apply String.eqb_neq in E.
    destruct (negb _); [|reflexivity].
    apply get_set_other. congruence.
Qed.

Lemma fold_store_scraped_get (w : World) (k : string) (urls : list string) :
  forall cache : JsMap.t Article,
    JsMap.get (fold_left store_scraped (map (scrapeArticle w) urls) cache) k =
    if existsb (String.eqb k) urls && GoogleApp.storable w k
    then Some (scrapeArticle w k) else JsMap.get cache k.
Proof.
  induction urls as [|u urls IH]; intros cache; cbn [map fold_left existsb].
  - reflexivity.
  - rewrite IH, store_scraped_get, (String.eqb_sym k u).
    destruct (existsb (String.eqb k) urls), (String.eqb u k),
      (GoogleApp.storable w k); reflexivity.
Qed.

Lemma set_size {V : Type} (m : JsMap.t V) (k : string) (v : V) :
  JsMap.size (JsMap.set m k v) <= S (JsMap.size m).
Proof.
  unfold JsMap.size. induction m as [|[k' v'] m IH]; cbn; [lia|].
  destruct (String.eqb k' k); cbn; lia.
Qed.

Lemma fold_store_scraped_size (articles : list Article) :
  forall cache : JsMap.t Article,
    JsMap.size (fold_left store_scraped articles cache)
    <= JsMap.size cache + length articles.
Proof.
  induction articles as [|a articles IH]; intros cache; cbn [fold_left length]; [lia|].
  specialize (IH (store_scraped cache a)).
  assert (JsMap.size (store_scraped cache a) <= S (JsMap.size cache)).
  { unfold store_scraped. destruct (negb _); [apply set_size | lia]. }
  lia.
Qed.

End RefreshEffect.

(** X2. After a refresh that could load the index page, looking a URL up
    in the cache gives the fresh scrape of that URL when it is among the
    first 20 discovered URLs and its scrape is not titled "Article", and
    what the cache held before in every other case. *)
Theorem refresh_lookup (w : World) (s : State) (doc : Document) (k : string) :
  http_get w Refresh.INDEX_URL = Some doc ->
  JsMap.get (articleCache (Refresh.refreshArticleCache w s)) k =
  if existsb (String.eqb k) (firstn 20 (Refresh.discover doc))
     && GoogleApp.storable w k
  then Some (Scraper.scrapeArticle w k)
  else JsMap.get (articleCache s) k.
Proof.
  intros Hdoc. rewrite (refresh_cache_fold w s doc Hdoc).
  apply fold_store_scraped_get.
Qed.

Lemma refresh_lookup_witness :
  JsMap.get (articleCache (Refresh.refreshArticleCache online one_article)) change_url
  = Some (Scraper.scrapeArticle online change_url).
Proof.
  rewrite (refresh_lookup online one_article index_page change_url); reflexivity.
Defined.

(** X3. A refresh that could load the index page adds at most 20 entries to
    the cache and sets [lastCacheTime] to the time it completes. *)
Theorem refresh_growth (w : World) (s : State) (doc : Document) :
  http_get w Refresh.INDEX_URL = Some doc ->
  JsMap.size (articleCache (Refresh.refreshArticleCache w s))
  <= JsMap.size (articleCache s) + 20
  /\ lastCacheTime (Refresh.refreshArticleCache w s) = Some (date_refreshed w).
Proof.
  intros Hdoc. split.
  - rewrite (refresh_cache_fold w s doc Hdoc).
    etransitivity; [apply fold_store_scraped_size|].
    rewrite length_map. pose proof (firstn_le_length 20 (Refresh.discover doc)). lia.
  - unfold Refresh.refreshArticleCache. now rewrite Hdoc.
Qed.

Lemma refresh_growth_witness :
  JsMap.size (articleCache (Refresh.refreshArticleCache online one_article))
  <= JsMap.size (articleCache one_article) + 20
  /\ lastCacheTime (Refresh.refreshArticleCache online one_article)
     = Some (date_refreshed online).
Proof.
  apply (refresh_growth online one_article index_page). reflexivity.
Defined.

(* ================================================================== *)
(** * The fields of a scraped article *)

Section FieldFacts.
Import JsString Scraper.

Lemma lower_unit_idempotent (c : ascii) : lower_unit (lower_unit c) = lower_unit c.
Proof. destruct c as [[] [] [] [] [] [] [] []]; reflexivity. Qed.

Lemma toLowerCase_idempotent (s : string) : toLowerCase (toLowerCase s) = toLowerCase s.
Proof.
  induction s as [|c s IH]; cbn; [reflexivity|].
  now rewrite lower_unit_idempotent, IH.
Qed.

Lemma lowered_drop (n : nat) (s : string) :
  toLowerCase s = s -> toLowerCase (drop n s) = drop n s.
Proof.
  revert s; induction n as [|n IH]; intros [|c s] H; cbn; try assumption; try reflexivity.
  apply IH. cbn in H. now injection H.
Qed.

(** Taking an occurrence of [pat] out of a lowercase string leaves a
    lowercase string. *)
Lemma lowered_replace (pat s : string) :
  toLowerCase s = s ->
  toLowerCase (replace pat EmptyString s) = replace pat EmptyString s.
Proof.
  induction s as [|c s IH]; intros H.
  - cbn [replace]. destruct (prefix pat EmptyString); [|reflexivity].
    cbn [append]. now apply lowered_drop.
  - cbn [replace]. destruct (prefix pat (String c s)).
    + cbn [append]. now apply lowered_drop.
    + cbn in H. injection H as Hc Hs. cbn. now rewrite Hc, (IH Hs).
Qed.

Lemma extract_topics_ok (doc : Document) :
  List.length (extract_topics doc) <= 5
  /\ NoDup (extract_topics doc)
  /\ Forall topic_ok (extract_topics doc).
Proof.
  unfold extract_topics.
  set (step := fun (topics : list string) (text : string) => _).
  assert (forall texts acc,
             NoDup acc /\ Forall topic_ok acc ->
             NoDup (fold_left step texts acc)
             /\ Forall topic_ok (fold_left step texts acc)) as Hfold.
  { induction texts as [|text texts IH]; intros acc Hacc; cbn [fold_left]; [exact Hacc|].
    apply IH. unfold step.
    set (tag := replace "#" EmptyString (toLowerCase (trim text))).
    destruct (truthy tag); cbn [andb]; [|exact Hacc].
    destruct (2 <? String.length tag) eqn:Hlen; cbn [andb]; [|exact Hacc].
    destruct (existsb (String.eqb tag) acc) eqn:Hmem; cbn [negb]; [exact Hacc|].
    destruct Hacc as [Hnd Hall]. split.
    - apply (Permutation_NoDup (Permutation_cons_append _ _)). constructor; [|exact Hnd].
      intros Hin. assert (existsb (String.eqb tag) acc = true) as E.
      { apply existsb_exists. exists tag. split; [exact Hin | apply String.eqb_refl]. }
      congruence.
    - apply Forall_app. split; [exact Hall|]. constructor; [|constructor].
      split; [now apply Nat.ltb_lt|].
      apply lowered_replace, toLowerCase_idempotent. }
  destruct (Hfold (sel_each_text doc tagSelector) [] (conj (NoDup_nil _) (Forall_nil _)))
    as [Hnd Hall].
  split; [apply firstn_le_length|]. split.
  - now apply firstn_nodup.
  - apply Forall_forall. intros t Hin. apply firstn_in in Hin.
    rewrite Forall_forall in Hall. now apply Hall.
Qed.

Lemma collapse_ws_spaced (s : string) :
  forall in_run : bool,
    single_spaced (collapse_ws in_run s)
    /\ (in_run = true ->
        match collapse_ws in_run s with
        | EmptyString => True
        | String c _ => c <> " "%char
        end).
Proof.
  induction s as [|c s IH]; intros in_run; [cbn; auto|].
  cbn [collapse_ws]. destruct (is_space c) eqn:Hsp.
  - destruct in_run.
    + apply IH.
    + split; [|discriminate]. destruct (IH true) as [Hss Hhead].
      cbn [single_spaced]. split; [reflexivity|]. split; [|exact Hss].
      destruct (collapse_ws true s); [exact I|].
      intros [_ ->]. now apply (Hhead eq_refl).
  - assert (c <> " "%char) as Hc by (intros ->; discriminate).
    destruct (IH false) as [Hss _]. split; [|intros _; exact Hc].
    cbn [single_spaced]. split; [congruence|]. split; [|exact Hss].
    destruct (collapse_ws false s); [exact I | tauto].
Qed.

Lemma substring0_spaced (n : nat) (s : string) :
  single_spaced s -> single_spaced (substring0 n s).
Proof.
  revert s; induction n as [|n IH]; intros [|c s] H; cbn [substring0]; try exact I.
  destruct H as (H1 & H2 & H3). cbn [single_spaced]. split; [exact H1|].
  split; [|now apply IH].
  destruct n, s; cbn [substring0]; auto.
Qed.

Lemma length_append (a b : string) :
  String.length (a ++ b) = String.length a + String.length b.
Proof. induction a as [|c a IH]; cbn; [reflexivity | now rewrite IH]. Qed.

End FieldFacts.

(** X4. The topics of a scraped article are at most five, pairwise
    distinct, each longer than two code units and in lower case. *)
Theorem scraped_topics (w : World) (u : string) :
  List.length (topics (Scraper.scrapeArticle w u)) <= 5
  /\ NoDup (topics (Scraper.scrapeArticle w u))
  /\ Forall (fun t => 2 < String.length t /\ JsString.toLowerCase t = t)
            (topics (Scraper.scrapeArticle w u)).
Proof.
  unfold Scraper.scrapeArticle. destruct (http_get w u) as [doc|].
  - cbn [topics Scraper.extract]. apply extract_topics_ok.
  - cbn. repeat split; [lia | constructor | constructor].
Qed.

(** X5. The searchable body of a scraped article has at most 3000 code
    units, and its only white space is single spaces: no TAB, no line
    break, no two spaces in a row. *)
Theorem scraped_content (w : World) (u : string) :
  String.length (content (Scraper.scrapeArticle w u)) <= 3000
  /\ single_spaced (content (Scraper.scrapeArticle w u)).
Proof.
  unfold Scraper.scrapeArticle. destruct (http_get w u) as [doc|].
  - cbn [content Scraper.extract]. unfold Scraper.extract_content. split.
    + apply substring0_length.
    + apply substring0_spaced, collapse_ws_spaced.
  - cbn. split; [lia | exact I].
Qed.

(** X6. The summary of a scraped article has at most 303 code units: 300
    of the text found and the ellipsis. *)
Theorem scraped_summary (w : World) (u : string) :
  String.length (summary (Scraper.scrapeArticle w u)) <= 303.
Proof.
  unfold Scraper.scrapeArticle. destruct (http_get w u) as [doc|].
  - cbn [summary Scraper.extract].
    destruct (JsString.truthy (Scraper.extract_summary doc)); [|cbn; lia].
    rewrite length_append.
    pose proof (substring0_length 300 (Scraper.extract_summary doc)).
    destruct (300 <? String.length (Scraper.extract_summary doc)); cbn [String.length]; lia.
  - cbn. lia.
Qed.

(* ================================================================== *)
(** * More on the scorer *)

Section ScorerBounds.
Import JsString Scorer.

Lemma score_term_bounds (article : Article) (score result : Z) (term : string) :
  score_term article score term = Returns result ->
  (score <= result <= score + 13)%Z.
Proof.
  unfold score_term.
  destruct (contentMatches term (searchableText article)) as [n| |]; cbn [bind];
    intros H; try discriminate.
  injection H as <-.
  destruct (includes (toLowerCase (title article)) term);
    destruct (includes (toLowerCase (summary article)) term);
    destruct (existsb (fun topic => includes topic term) (topics article)); lia.
Qed.

Lemma score_loop_bounds (article : Article) (terms : list string) :
  forall score result : Z,
    fold_left (fun acc term => score <- acc ;; score_term article score term)
              terms (Returns score) = Returns result ->
    (score <= result <= score + 13 * Z.of_nat (length terms))%Z.
Proof.
  induction terms as [|term terms IH]; intros score result; cbn [fold_left length].
  - intros H. injection H as <-. lia.
  - cbn [bind]. destruct (score_term article score term) as [score'| |] eqn:E.
    + intros H. apply IH in H. apply score_term_bounds in E. lia.
    + now rewrite (proj1 (fold_left_throws article terms)).
    + now rewrite (proj2 (fold_left_throws article terms)).
Qed.

Lemma score_entries_no_terms (src : option Source) (entries : list (string * Article)) :
  forall results : list Hit, score_entries src [] entries results = Returns results.
Proof.
  induction entries as [|[k article] entries IH]; intros results; [reflexivity|].
  cbn [score_entries score_article fold_left bind]. cbn. apply IH.
Qed.

Lemma queryTerms_short (query : string) :
  Forall (fun term => String.length term <= 2) (split " " (toLowerCase query)) ->
  queryTerms query = [].
Proof.
  unfold queryTerms. induction 1 as [|term terms Hlen _ IH]; [reflexivity|].
  cbn [filter]. replace (2 <? String.length term) with false; [exact IH|].
  symmetry. apply Nat.ltb_ge. exact Hlen.
Qed.

End ScorerBounds.

(** X7. A query whose words all have at most two code units scores 0 on
    every article: the cache-only search returns nothing, and the
    Google-enabled search returns the Google hits alone. *)
Theorem short_words_find_nothing (query : string) :
  Forall (fun term => String.length term <= 2)
         (JsString.split " " (JsString.toLowerCase query)) ->
  (forall article : Article,
      Scorer.score_article (Scorer.queryTerms query) article = Returns 0%Z)
  /\ (forall (w1 w2 : World) (s : State),
         fst (CacheApp.searchWorklineArticles w1 w2 query s) = Returns [])
  /\ (forall (cfg : Config) (wg wc : World) (s : State),
         fst (GoogleApp.searchWorklineArticles cfg wg wc query s)
         = Returns (firstn 5 (js_sort Scorer.by_score
                                (fst (GoogleApp.searchWithGoogle cfg wg query s))))).
Proof.
  intros Hshort. rewrite (queryTerms_short query Hshort). split; [|split].
  - reflexivity.
  - intros w1 w2 s. unfold CacheApp.searchWorklineArticles. cbv zeta. cbn [fst].
    rewrite (queryTerms_short query Hshort), score_entries_no_terms. reflexivity.
  - intros cfg wg wc s. unfold GoogleApp.searchWorklineArticles.
    destruct (GoogleApp.searchWithGoogle cfg wg query s) as [googleResults s1].
    unfold GoogleApp.searchCachedArticles.
    rewrite (queryTerms_short query Hshort), score_entries_no_terms. reflexivity.
Qed.

Lemma short_words_find_nothing_witness :
  fst (CacheApp.searchWorklineArticles online online "an AI or RI" one_article)
  = Returns [].
Proof.
  apply (short_words_find_nothing "an AI or RI").
  repeat constructor.
Defined.

(** X8. A score that the scorer returns lies between 0 and 13 times the
    number of query terms. *)
Theorem score_bounds (terms : list string) (article : Article) (result : Z) :
  Scorer.score_article terms article = Returns result ->
  (0 <= result <= 13 * Z.of_nat (length terms))%Z.
Proof.
  intros H. apply score_loop_bounds in H. lia.
Qed.

Lemma score_bounds_witness :
  (0 <= 15 <= 13 * Z.of_nat (length (Scorer.queryTerms "Hybrid work")))%Z.
Proof.
  apply (score_bounds (Scorer.queryTerms "Hybrid work") hybrid_guide 15).
  reflexivity.
Defined.

(** X9. For a query whose terms hold no syntax character of the pattern
    language, the scorer returns on every article, and text appended to the
    body of an article never lowers its score. *)
Theorem literal_score_monotone (query : string) (article : Article) (x : string) :
  Forall (fun term => JsRegExp.no_syntax_char term = true) (Scorer.queryTerms query) ->
  exists before after : Z,
    Scorer.score_article (Scorer.queryTerms query) article = Returns before
    /\ Scorer.score_article (Scorer.queryTerms query) (append_to_body article x)
       = Returns after
    /\ (before <= after)%Z.
Proof. apply score_monotone_literal. Qed.

Lemma literal_score_monotone_witness :
  exists before after : Z,
    Scorer.score_article (Scorer.queryTerms "Hybrid work") hybrid_guide = Returns before
    /\ Scorer.score_article (Scorer.queryTerms "Hybrid work")
         (append_to_body hybrid_guide " more hybrid work") = Returns after
    /\ (before <= after)%Z.
Proof.
  apply (literal_score_monotone "Hybrid work" hybrid_guide " more hybrid work").
  repeat constructor.
Defined.

(* ================================================================== *)
(** * The order of the results *)

Section OrderFacts.
Import Scorer.

Lemma descending_tail (a : Hit) (l : list Hit) : descending (a :: l) -> descending l.
Proof. destruct l; [intros; exact I | intros [_ H]; exact H]. Qed.

Lemma descending_head (a : Hit) (l : list Hit) :
  descending (a :: l) -> Forall (fun y => (hit_score y <= hit_score a)%Z) l.
Proof.
  revert a; induction l as [|b l IH]; intros a H; [constructor|].
  destruct H as [Hba H]. constructor; [exact Hba|].
  eapply Forall_impl; [|apply IH; exact H]. cbn. intros; lia.
Qed.

Lemma descending_firstn (n : nat) (l : list Hit) :
  descending l -> descending (firstn n l).
Proof.
  revert l; induction n as [|n IH]; intros [|a l] H; cbn [firstn]; try exact I.
  pose proof (IH l (descending_tail _ _ H)) as Hl.
  destruct n; [exact I|]. destruct l as [|b l]; [exact I|].
  cbn [firstn] in *. split; [apply H | exact Hl].
Qed.

Lemma insert_sorted_filter (z : Z) (x : Hit) (sorted : list Hit) :
  descending sorted ->
  filter (scored z) (insert_sorted by_score x sorted)
  = filter (scored z) sorted ++ filter (scored z) [x].
Proof.
  induction sorted as [|y l IH]; intros Hd; [reflexivity|].
  cbn [insert_sorted]. unfold by_score at 1.
  destruct (hit_score x - hit_score y <=? 0)%Z eqn:E.
  - cbn [filter]. rewrite (IH (descending_tail _ _ Hd)).
    destruct (scored z y); reflexivity.
  - apply Z.leb_gt in E. change (x :: y :: l) with ([x] ++ y :: l).
    rewrite filter_app.
    change (filter (scored z) [x]) with (if scored z x then [x] else []).
    destruct (scored z x) eqn:Ex; [|now rewrite app_nil_r].
    apply Z.eqb_eq in Ex.
    assert (filter (scored z) (y :: l) = []) as ->; [|reflexivity].
    pose proof (descending_head _ _ Hd) as Hall.
    assert (Forall (fun e => (hit_score e <= hit_score y)%Z) (y :: l)) as Hall'
        by (constructor; [lia | exact Hall]).
    clear -Hall' E Ex. induction Hall' as [|e l' He _ IH']; [reflexivity|].
    cbn [filter]. unfold scored at 1.
    replace (hit_score e =? z)%Z with false; [exact IH'|].
    symmetry. apply Z.eqb_neq. lia.
Qed.

Lemma sort_snoc_filter (z : Z) (l : list Hit) :
  forall sorted : list Hit,
    descending sorted ->
    filter (scored z) (sort_snoc by_score sorted l)
    = filter (scored z) sorted ++ filter (scored z) l.
Proof.
  induction l as [|x l IH]; intros sorted Hd; cbn [sort_snoc].
  - cbn. now rewrite app_nil_r.
  - rewrite IH by now apply insert_sorted_descending.
    rewrite (insert_sorted_filter z x sorted Hd), <- app_assoc.
    change (x :: l) with ([x] ++ l). now rewrite filter_app.
Qed.

End OrderFacts.

(** X10. Sorting by score rearranges the list, puts it in descending order
    of score, and is stable: results of equal score keep their order. *)
Theorem sort_by_score (l : list Hit) :
  Permutation (js_sort Scorer.by_score l) l
  /\ descending (js_sort Scorer.by_score l)
  /\ forall z : Z,
       filter (scored z) (js_sort Scorer.by_score l) = filter (scored z) l.
Proof.
  split; [apply js_sort_perm|]. split; [apply js_sort_descending|].
  intros z. unfold js_sort. now rewrite sort_snoc_filter.
Qed.

Section LocalHits.
Import Scorer.

(** When the loop over the cache returns, it has pushed the hits of the
    articles with a positive score, in cache order. *)
Lemma score_entries_returns (src : option Source) (terms : list string)
      (entries : list (string * Article)) :
  forall results final : list Hit,
    score_entries src terms entries results = Returns final ->
    final = results ++ positive_hits src terms (map snd entries).
Proof.
  unfold positive_hits.
  induction entries as [|[k article] entries IH]; intros results final.
  - cbn. intros H. injection H as <-. now rewrite app_nil_r.
  - cbn [score_entries map snd filter].
    destruct (score_article terms article) as [score| |] eqn:E; cbn [bind];
      try discriminate.
    assert (score_or_zero terms article = score) as Hz
        by (unfold score_or_zero; now rewrite E).
    intros H. apply IH in H. rewrite H, Hz.
    destruct (0 <? score)%Z; [|reflexivity].
    cbn [map]. rewrite Hz. now rewrite <- app_assoc.
Qed.

Lemma positive_hits_in (src : option Source) (terms : list string)
      (entries : list (string * Article)) (h : Hit) :
  In h (positive_hits src terms (map snd entries)) ->
  (0 < hit_score h)%Z
  /\ exists (k : string) (article : Article),
       In (k, article) entries
       /\ h = hit_of src article (hit_score h)
       /\ score_article terms article = Returns (hit_score h).
Proof.
  unfold positive_hits. intros Hin.
  apply in_map_iff in Hin as [article [<- Hin]].
  apply filter_In in Hin as [Hin Hpos]. apply Z.ltb_lt in Hpos.
  apply in_map_iff in Hin as [[k a] [Ha Hin]]. cbn in Ha. subst a.
  split; [exact Hpos|]. exists k, article. split; [exact Hin|].
  split; [reflexivity|]. cbn [hit_of hit_score].
  unfold score_or_zero in *. destruct (score_article terms article); [reflexivity|lia|lia].
Qed.

End LocalHits.

(** X11. The results of a search, in either variant, come in descending
    order of score. *)
Theorem results_descending
        (cfg : Config) (wg wc w1 w2 : World) (query : string) (s : State) :
  (forall results : list Hit,
      fst (GoogleApp.searchWorklineArticles cfg wg wc query s) = Returns results ->
      descending results)
  /\ (forall results : list Hit,
         fst (CacheApp.searchWorklineArticles w1 w2 query s) = Returns results ->
         descending results).
Proof.
  split; intros results H.
  - apply google_search_value in H as [cacheResults [_ ->]].
    apply descending_firstn, js_sort_descending.
  - unfold CacheApp.searchWorklineArticles in H. cbv zeta in H. cbn [fst] in H.
    destruct (Scorer.score_entries None _ _ _) as [r| |]; cbn [bind] in H;
      try discriminate.
    replace results with (firstn 5 (js_sort Scorer.by_score r)) by congruence.
    apply descending_firstn, js_sort_descending.
Qed.

Lemma results_descending_witness :
  exists results : list Hit,
    fst (GoogleApp.searchWorklineArticles with_google online online "abc" crowded)
    = Returns results
    /\ descending results.
Proof.
  eexists. split.
  - vm_compute. reflexivity.
  - apply (proj1 (results_descending with_google online online online online
                    "abc" crowded)).
    vm_compute. reflexivity.
Defined.

(** X12. Every result of the cache-only search has a positive score and
    is the hit of an article that the cache holds after the search, with
    the score the scorer returns for that article. *)
Theorem cache_results_from_cache
        (w1 w2 : World) (query : string) (s : State) (results : list Hit) (h : Hit) :
  fst (CacheApp.searchWorklineArticles w1 w2 query s) = Returns results ->
  In h results ->
  (0 < hit_score h)%Z
  /\ exists (k : string) (article : Article),
       In (k, article)
          (articleCache (snd (CacheApp.searchWorklineArticles w1 w2 query s)))
       /\ h = Scorer.hit_of None article (hit_score h)
       /\ Scorer.score_article (Scorer.queryTerms query) article
          = Returns (hit_score h).
Proof.
  unfold CacheApp.searchWorklineArticles. cbv zeta. cbn [fst snd].
  set (s2 := if JsMap.size _ =? 0 then _ else _).
  destruct (Scorer.score_entries None _ (articleCache s2) []) as [r| |] eqn:E;
    cbn [bind]; intros H Hin; try discriminate.
  replace results with (firstn 5 (js_sort Scorer.by_score r)) in Hin by congruence.
  apply firstn_in, js_sort_in in Hin.
  apply score_entries_returns in E. cbn [app] in E. subst r.
  now apply positive_hits_in in Hin.
Qed.

Lemma cache_results_from_cache_witness :
  (0 < 8)%Z
  /\ exists (k : string) (article : Article),
       In (k, article)
          (articleCache (snd (CacheApp.searchWorklineArticles offline offline
                                "hybrid" one_article)))
       /\ Scorer.hit_of None hybrid_guide 8 = Scorer.hit_of None article 8
       /\ Scorer.score_article (Scorer.queryTerms "hybrid") article = Returns 8%Z.
Proof.
  apply (cache_results_from_cache offline offline "hybrid" one_article
           [Scorer.hit_of None hybrid_guide 8] (Scorer.hit_of None hybrid_guide 8)).
  - vm_compute. reflexivity.
  - left. reflexivity.
Defined.

(** X13. Every result of the Google-enabled search is a Google hit, of
    weight 10, or the hit of a cached article with a positive score; none
    has a score of 0 or less. *)
Theorem google_results_positive
        (cfg : Config) (wg wc : World) (query : string) (s : State)
        (results : list Hit) (h : Hit) :
  fst (GoogleApp.searchWorklineArticles cfg wg wc query s) = Returns results ->
  In h results ->
  (0 < hit_score h)%Z
  /\ ((hit_source h = Some FromGoogle /\ hit_score h = 10%Z)
      \/ (hit_source h = Some FromCache
          /\ exists (k : string) (article : Article),
               In (k, article)
                  (articleCache
                     (snd (GoogleApp.searchWorklineArticles cfg wg wc query s)))
               /\ h = Scorer.hit_of (Some FromCache) article (hit_score h))).
Proof.
  intros H Hin. rewrite google_search_state. cbv zeta.
  apply google_search_value in H as [cacheResults [Hcache ->]].
  apply firstn_in, js_sort_in, merge_results_in in Hin.
  destruct Hin as [Hin|[Hin _]].
  - assert (hit_source h = Some FromGoogle /\ hit_score h = 10%Z) as [Hs Hz].
    { revert Hin. unfold GoogleApp.searchWithGoogle.
      destruct (negb _ || negb _); [intros []|].
      destruct (google_get wg query); cbn [fst]; try (intros []).
      intros Hin. apply in_map_iff in Hin as [item [<- _]]. split; reflexivity. }
    split; [lia | left; now split].
  - unfold GoogleApp.searchCachedArticles in Hcache. cbn [fst] in Hcache.
    set (s2 := if Refresh.is_stale wc _ then _ else _) in *.
    destruct (Scorer.score_entries (Some FromCache) _ (articleCache s2) [])
      as [r| |] eqn:E; cbn [bind] in Hcache; try discriminate.
    replace cacheResults with (js_sort Scorer.by_score r) in Hin by congruence.
    apply js_sort_in in Hin.
    apply score_entries_returns in E. cbn [app] in E. subst r.
    apply positive_hits_in in Hin as [Hpos [k [article [Hk [Hh _]]]]].
    split; [exact Hpos|]. right. split; [now rewrite Hh|].
    now exists k, article.
Qed.

Lemma google_results_positive_witness :
  exists (results : list Hit) (h : Hit),
    fst (GoogleApp.searchWorklineArticles with_google online online
           "change management" one_article) = Returns results
    /\ In h results /\ (0 < hit_score h)%Z.
Proof.
  eexists. eexists. split; [vm_compute; reflexivity|]. split; [left; reflexivity|].
  eapply (google_results_positive with_google online online
            "change management" one_article).
  - vm_compute. reflexivity.
  - left. reflexivity.
Defined.

(* ================================================================== *)
(** * The Google phase and the cache *)

Section GoogleEffect.
Import JsString Scraper Refresh GoogleApp.

Lemma existsb_sorted_in (w : World) (items : list Item) (f : Item -> bool) :
  existsb f (js_sort (by_latency w) items) = existsb f items.
Proof.
  apply eq_true_iff_eq. rewrite !existsb_exists.
  split; intros [x [Hx Hf]]; exists x; (split; [|exact Hf]).
  - now apply js_sort_in in Hx.
  - now apply js_sort_in.
Qed.

Lemma google_store_get (w : World) (cache : JsMap.t Article) (top : list Item)
      (k : string) :
  JsMap.get
    (fold_left (store_fresh w)
       (js_sort (by_latency w) (filter (fun item => negb (is_cached cache item)) top))
       cache) k
  = match JsMap.get cache k with
    | Some articleData => Some articleData
    | None => if existsb (String.eqb k) (map link top) && storable w k
              then Some (scrapeArticle w k) else None
    end.
Proof.
  rewrite fold_store_fresh_get, existsb_sorted_in.
  destruct (JsMap.get cache k) as [articleData|] eqn:Hget.
  - replace (existsb _ _) with false; [reflexivity|].
    symmetry. apply not_true_is_false. intros H.
    apply existsb_exists in H as [x [Hx H]].
    apply filter_In in Hx as [_ Hx].
    apply andb_true_iff in H as [H _]. apply String.eqb_eq in H.
    unfold is_cached in Hx. rewrite H, Hget in Hx. discriminate.
  - destruct (storable w k).
    2:{ rewrite andb_false_r. replace (existsb _ _) with false; [reflexivity|].
        symmetry. apply not_true_is_false. intros H.
        apply existsb_exists in H as [x [_ H]]. now rewrite andb_false_r in H. }
    rewrite andb_true_r.
    replace (existsb _ (filter _ top)) with (existsb (String.eqb k) (map link top));
      [reflexivity|].
    apply eq_true_iff_eq. rewrite !existsb_exists. split.
    + intros [u [Hu E]]. apply String.eqb_eq in E as <-.
      apply in_map_iff in Hu as [item [Hk Hitem]]. exists item. split.
      * apply filter_In. split; [exact Hitem|]. unfold is_cached. now rewrite Hk, Hget.
      * now rewrite Hk, String.eqb_refl.
    + intros [item [Hitem E]]. apply filter_In in Hitem as [Hitem _].
      apply andb_true_iff in E as [E _]. apply String.eqb_eq in E.
      exists k. split; [|apply String.eqb_refl]. rewrite <- E. now apply in_map.
Qed.

End GoogleEffect.

(** X14. When Google is configured and answers with items, the hits
    [searchWithGoogle] returns are those of the first five items, in order;
    a record the cache held before stays as it was, and for a URL the cache
    did not hold it afterwards holds the fresh scrape exactly when the URL
    is the link of one of those items and the scrape is not titled
    "Article". *)
Theorem google_phase_effect
        (cfg : Config) (w : World) (query : string) (s : State)
        (items : list Item) (k : string) :
  JsString.truthy_opt (GOOGLE_API_KEY cfg) = true ->
  JsString.truthy_opt (GOOGLE_CSE_ID cfg) = true ->
  google_get w query = GoogleItems items ->
  map hit_url (fst (GoogleApp.searchWithGoogle cfg w query s))
  = map link (firstn 5 items)
  /\ JsMap.get (articleCache (snd (GoogleApp.searchWithGoogle cfg w query s))) k
     = match JsMap.get (articleCache s) k with
       | Some articleData => Some articleData
       | None =>
           if existsb (String.eqb k) (map link (firstn 5 items))
              && GoogleApp.storable w k
           then Some (Scraper.scrapeArticle w k) else None
       end.
Proof.
  intros Hkey Hcse Hitems. unfold GoogleApp.searchWithGoogle.
  rewrite Hkey, Hcse, Hitems. cbn [negb orb fst snd articleCache]. split.
  - rewrite map_map. reflexivity.
  - apply google_store_get.
Qed.

Lemma google_phase_effect_witness :
  JsMap.get (articleCache (snd (GoogleApp.searchWithGoogle with_google online
                                  "change" one_article)))
            (url hybrid_guide)
  = Some hybrid_guide.
Proof.
  refine (proj2 (google_phase_effect with_google online "change" one_article _
                   (url hybrid_guide) eq_refl eq_refl eq_refl)).
Defined.

Section LocalOnly.
Import JsString Scraper Refresh GoogleApp.

Lemma merge_results_distinct (cacheResults : list Hit) :
  forall googleResults : list Hit,
    NoDup (map hit_url (googleResults ++ cacheResults)) ->
    merge_results googleResults cacheResults = googleResults ++ cacheResults.
Proof.
  unfold merge_results.
  induction cacheResults as [|c rest IH]; intros acc Hnd; cbn [fold_left].
  - now rewrite app_nil_r.
  - replace (existsb _ acc) with false.
    + rewrite IH; rewrite <- app_assoc; [reflexivity | exact Hnd].
    + symmetry. apply not_true_is_false. intros H. apply url_known in H.
      rewrite map_app in Hnd. cbn [map] in Hnd.
      apply NoDup_remove_2 in Hnd. apply Hnd, in_or_app. now left.
Qed.

Lemma insert_sorted_last (x : Hit) (sorted : list Hit) :
  Forall (fun y => (hit_score x <= hit_score y)%Z) sorted ->
  insert_sorted Scorer.by_score x sorted = sorted ++ [x].
Proof.
  induction 1 as [|y l Hy _ IH]; [reflexivity|].
  cbn [insert_sorted app]. unfold Scorer.by_score at 1.
  replace (hit_score x - hit_score y <=? 0)%Z with true; [now rewrite IH|].
  symmetry. apply Z.leb_le. lia.
Qed.

Lemma descending_app_all (x : Hit) (l1 l2 : list Hit) :
  descending (l1 ++ x :: l2) ->
  Forall (fun y => (hit_score x <= hit_score y)%Z) l1.
Proof.
  induction l1 as [|a l1 IH]; intros H; [constructor|].
  cbn [app] in H. constructor.
  - pose proof (descending_head _ _ H) as Hall.
    rewrite Forall_forall in Hall. apply Hall, in_or_app. right. now left.
  - apply IH. eapply descending_tail. exact H.
Qed.

(** Sorting a list that is in descending order changes nothing. *)
Lemma js_sort_descending_id (l : list Hit) :
  descending l -> js_sort Scorer.by_score l = l.
Proof.
  unfold js_sort. change l with ([] ++ l) at 1 3. generalize (@nil Hit) as sorted.
  induction l as [|x l IH]; intros sorted Hd; cbn [sort_snoc].
  - now rewrite app_nil_r.
  - rewrite (insert_sorted_last x sorted (descending_app_all _ _ _ Hd)).
    rewrite IH; rewrite <- app_assoc; [reflexivity | exact Hd].
Qed.

Lemma filter_map_nodup {K E : Type} (keep : E -> bool) (key : E -> K)
      (entries : list E) :
  NoDup (map key entries) -> NoDup (map key (filter keep entries)).
Proof.
  induction entries as [|a l IH]; cbn [map filter]; intros H; [constructor|].
  inversion H as [|? ? Hnotin Hnd]; subst.
  destruct (keep a); [|now apply IH]. cbn [map]. constructor; [|now apply IH].
  intros Hin. apply Hnotin. apply in_map_iff in Hin as [y [Hy Hin]].
  apply filter_In in Hin as [Hin _]. rewrite <- Hy. now apply in_map.
Qed.

Lemma cache_urls_are_keys (cache : JsMap.t Article) :
  cache_wf cache -> map url (map snd cache) = JsMap.keys cache.
Proof.
  unfold JsMap.keys. induction cache as [|[k a] cache IH]; intros Hwf; [reflexivity|].
  cbn [map fst snd]. f_equal.
  - apply (Hwf k a). now left.
  - apply IH. intros k' a' Hin. apply Hwf. now right.
Qed.

Lemma positive_hits_nodup (src : option Source) (terms : list string)
      (cache : JsMap.t Article) :
  JsMap.ok cache -> cache_wf cache ->
  NoDup (map hit_url (positive_hits src terms (map snd cache))).
Proof.
  intros Hok Hwf. unfold positive_hits. rewrite map_map. cbn [Scorer.hit_of hit_url].
  apply filter_map_nodup. unfold JsMap.ok in Hok.
  rewrite <- (cache_urls_are_keys cache Hwf) in Hok. exact Hok.
Qed.

End LocalOnly.

(** X15. When Google is not configured, fails or has no items, the
    Google-enabled search over a well-formed cache returns the first five
    results of the cache search, and leaves the state the cache search
    leaves. *)
Theorem google_unavailable
        (cfg : Config) (wg wc : World) (query : string) (s : State) :
  JsString.truthy_opt (GOOGLE_API_KEY cfg) = false
  \/ JsString.truthy_opt (GOOGLE_CSE_ID cfg) = false
  \/ google_get wg query = GoogleFailure
  \/ google_get wg query = GoogleNoItems ->
  JsMap.ok (articleCache s) -> cache_wf (articleCache s) ->
  GoogleApp.searchWorklineArticles cfg wg wc query s
  = (cacheResults <- fst (GoogleApp.searchCachedArticles wc query s) ;;
     Returns (firstn 5 cacheResults),
     snd (GoogleApp.searchCachedArticles wc query s)).
Proof.
  intros Hdown Hok Hwf.
  assert (GoogleApp.searchWithGoogle cfg wg query s = ([], s)) as Hgoogle.
  { unfold GoogleApp.searchWithGoogle.
    destruct (JsString.truthy_opt (GOOGLE_API_KEY cfg)); [|reflexivity].
    destruct (JsString.truthy_opt (GOOGLE_CSE_ID cfg)); [|reflexivity].
    cbn [negb orb].
    destruct Hdown as [H|[H|[H|H]]]; try discriminate; now rewrite H. }
  unfold GoogleApp.searchWorklineArticles. rewrite Hgoogle.
  unfold GoogleApp.searchCachedArticles. cbn [fst snd].
  set (s2 := if Refresh.is_stale wc s then _ else s).
  assert (JsMap.ok (articleCache s2) /\ cache_wf (articleCache s2)) as [Hok2 Hwf2].
  { unfold s2. destruct (Refresh.is_stale wc s); [|now split].
    split; [now apply refresh_ok | now apply refresh_wf]. }
  destruct (Scorer.score_entries (Some FromCache) _ (articleCache s2) [])
    as [r| |] eqn:E; cbn [bind]; try reflexivity.
  apply score_entries_returns in E. cbn [app] in E. subst r.
  f_equal. f_equal. f_equal.
  rewrite merge_results_distinct.
  - cbn [app]. apply js_sort_descending_id, js_sort_descending.
  - cbn [app]. eapply Permutation_NoDup.
    + apply Permutation_map. symmetry. apply js_sort_perm.
    + now apply positive_hits_nodup.
Qed.

Lemma google_unavailable_witness :
  GoogleApp.searchWorklineArticles no_google online online "hybrid" one_article
  = (cacheResults <- fst (GoogleApp.searchCachedArticles online "hybrid" one_article) ;;
     Returns (firstn 5 cacheResults),
     snd (GoogleApp.searchCachedArticles online "hybrid" one_article)).
Proof.
  apply (google_unavailable no_google online online "hybrid" one_article).
  - left. reflexivity.
  - repeat constructor. intros [].
  - intros k article [H|[]]. injection H as <- <-. split; [reflexivity | discriminate].
Defined.

(* ================================================================== *)
(** * Facts about the messages *)

Section DecimalFacts.
Import Slack.

Lemma uint_digits (d : Decimal.uint) :
  all_digits (DecimalString.NilEmpty.string_of_uint d) = true.
Proof. induction d; cbn [DecimalString.NilEmpty.string_of_uint all_digits]; auto. Qed.

Lemma revapp_nonnil (d acc : Decimal.uint) :
  acc <> Decimal.Nil -> Decimal.revapp d acc <> Decimal.Nil.
Proof. revert acc; induction d; intros acc H; cbn; try apply IHd; congruence. Qed.

Lemma to_little_uint_nonnil (n : nat) :
  forall acc, acc <> Decimal.Nil -> Nat.to_little_uint n acc <> Decimal.Nil.
Proof.
  induction n as [|n IH]; intros acc H; cbn; [exact H|].
  apply IH. destruct acc; cbn; congruence.
Qed.

Lemma decimal_nonempty (n : nat) : JsString.truthy (decimal n) = true.
Proof.
  unfold decimal, Nat.to_uint.
  assert (Nat.to_little_uint n Decimal.zero <> Decimal.Nil) as H
      by (apply to_little_uint_nonnil; discriminate).
  assert (Decimal.rev (Nat.to_little_uint n Decimal.zero) <> Decimal.Nil) as H'.
  { unfold Decimal.rev. destruct (Nat.to_little_uint n Decimal.zero);
      [congruence | ..]; cbn; apply revapp_nonnil; discriminate. }
  destruct (Decimal.rev _); [congruence | ..]; reflexivity.
Qed.

Lemma decimal_digits (n : nat) : all_digits (decimal n) = true.
Proof. apply uint_digits. Qed.

Lemma decimal_inj (n m : nat) : decimal n = decimal m -> n = m.
Proof.
  unfold decimal. intros H. apply DecimalNat.Unsigned.to_uint_inj.
  apply (f_equal DecimalString.NilEmpty.uint_of_string) in H.
  rewrite !DecimalString.NilEmpty.usu in H. congruence.
Qed.

(** The identifier of a button is one the button handler accepts. *)
Lemma read_button_action (result : Hit) (index : nat) :
  read_action (action_id (read_button result index)) = true.
Proof.
  unfold read_action, read_button. cbn [action_id].
  change ("read_" ++ decimal index)%string
    with (String "r" (String "e" (String "a" (String "d" (String "_" (decimal index)))))).
  cbn [JsString.drop]. rewrite decimal_nonempty, decimal_digits.
  rewrite !prefix_cons, prefix_nil. reflexivity.
Qed.

End DecimalFacts.

Section MessageFacts.
Import JsString Slack.

Lemma buttons_app (l1 l2 : list Block) : buttons (l1 ++ l2) = buttons l1 ++ buttons l2.
Proof.
  induction l1 as [|b l1 IH]; [reflexivity|].
  destruct b as [t [btn|]| |]; cbn [app buttons]; now rewrite IH.
Qed.

Lemma ndd_unfold (b : Block) (rest : list Block) :
  no_double_divider (b :: rest)
  <-> (is_divider b = true -> match rest with
                              | [] => True
                              | c :: _ => is_divider c = false
                              end)
      /\ no_double_divider rest.
Proof.
  cbn [no_double_divider].
  destruct b as [t a| |e]; destruct rest as [|[t' a'| |e'] rest']; cbn;
    intuition congruence.
Qed.

Lemma ndd_app_after_plain (l1 l2 : list Block) :
  no_double_divider l1 -> no_double_divider l2 -> ends_plain l1 ->
  no_double_divider (l1 ++ l2).
Proof.
  induction l1 as [|b l1 IH]; intros H1 H2 Hend; [destruct Hend|].
  apply ndd_unfold in H1 as [Hb H1]. cbn [app]. apply ndd_unfold.
  destruct l1 as [|c l1].
  - cbn [app]. split; [|exact H2]. cbn in Hend. congruence.
  - split; [exact Hb|]. apply IH; assumption.
Qed.

Lemma ndd_app_before_plain (l1 l2 : list Block) :
  no_double_divider l1 -> no_double_divider l2 -> starts_plain l2 ->
  no_double_divider (l1 ++ l2).
Proof.
  induction l1 as [|b l1 IH]; intros H1 H2 Hstart; [exact H2|].
  apply ndd_unfold in H1 as [Hb H1]. cbn [app]. apply ndd_unfold.
  destruct l1 as [|c l1].
  - cbn [app]. split; [|exact H2]. intros _. destruct l2; [destruct Hstart | exact Hstart].
  - split; [exact Hb|]. apply IH; assumption.
Qed.

Lemma ends_plain_app (l1 l2 : list Block) : ends_plain l2 -> ends_plain (l1 ++ l2).
Proof.
  induction l1 as [|b l1 IH]; intros H; [exact H|].
  cbn [app ends_plain]. specialize (IH H).
  destruct (l1 ++ l2) eqn:E; [destruct IH | exact IH].
Qed.

Variable plain : nat -> Hit -> list Block.
Hypothesis plain_shape : result_shape plain.

Lemma plain_facts (index : nat) (result : Hit) :
  buttons (plain index result) = [read_button result index]
  /\ length (plain index result) <= 2
  /\ no_double_divider (plain index result)
  /\ starts_plain (plain index result)
  /\ ends_plain (plain index result).
Proof.
  destruct (plain_shape index result) as (text & context & -> & [->|[elements ->]]);
    cbn; repeat split; auto.
Qed.

Lemma results_blocks_buttons (total : nat) (results : list Hit) :
  forall index : nat,
    buttons (results_blocks plain total index results)
    = map (fun ri => read_button (fst ri) (snd ri))
          (combine results (seq index (length results))).
Proof.
  induction results as [|r rest IH]; intros index; [reflexivity|].
  cbn [results_blocks length seq combine map fst snd]. unfold result_blocks.
  rewrite !buttons_app, (proj1 (plain_facts index r)), IH.
  now destruct (index <? total - 1).
Qed.

Lemma format_results_buttons (tip query : string) (results : list Hit) :
  buttons (format_results plain tip query results)
  = map (fun ri => read_button (fst ri) (snd ri))
        (combine results (seq 0 (length results))).
Proof.
  unfold format_results. rewrite !buttons_app, results_blocks_buttons.
  cbn [buttons found_header app]. now rewrite app_nil_r.
Qed.

Lemma results_blocks_length (total : nat) (results : list Hit) :
  forall index : nat,
    index + length results = total ->
    length (results_blocks plain total index results)
    + (if length results =? 0 then 0 else 1) <= 3 * length results.
Proof.
  induction results as [|r rest IH]; intros index Htotal; [cbn; lia|].
  cbn [results_blocks length]. unfold result_blocks. rewrite !length_app.
  destruct (plain_facts index r) as (_ & Hr & _).
  cbn [length] in Htotal.
  destruct rest as [|r' rest'].
  - cbn [results_blocks length Nat.eqb] in *.
    replace (index <? total - 1) with false
      by (symmetry; apply Nat.ltb_ge; lia).
    cbn [length]. lia.
  - specialize (IH (S index) ltac:(cbn [length] in *; lia)).
    cbn [length Nat.eqb] in *. destruct (index <? total - 1); cbn [length]; lia.
Qed.

Lemma format_results_length (tip query : string) (results : list Hit) :
  results <> [] ->
  length (format_results plain tip query results) <= 3 * length results + 3.
Proof.
  intros Hne. unfold format_results. rewrite !length_app. cbn [length].
  pose proof (results_blocks_length (length results) results 0 eq_refl) as H.
  destruct results; [congruence|]. cbn [length Nat.eqb] in *. lia.
Qed.

Lemma results_blocks_dividers (total : nat) (results : list Hit) :
  forall index : nat,
    results <> [] -> index + length results = total ->
    no_double_divider (results_blocks plain total index results)
    /\ starts_plain (results_blocks plain total index results)
    /\ ends_plain (results_blocks plain total index results).
Proof.
  induction results as [|r rest IH]; intros index Hne Htotal; [congruence|].
  cbn [results_blocks length] in *.
  destruct (plain_facts index r) as (_ & _ & Hndd & Hstart & Hend).
  assert (starts_plain (result_blocks plain total index r)) as Hstart'.
  { unfold result_blocks. destruct (plain index r); [destruct Hstart | exact Hstart]. }
  destruct rest as [|r' rest'].
  - cbn [results_blocks]. rewrite app_nil_r. unfold result_blocks in *.
    replace (index <? total - 1) with false in *
      by (symmetry; apply Nat.ltb_ge; cbn [length] in Htotal; lia).
    rewrite app_nil_r in *. auto.
  - destruct (IH (S index) ltac:(discriminate) ltac:(cbn [length] in *; lia))
      as (Hndd' & Hstart'' & Hend').
    split; [|split].
    + apply ndd_app_before_plain; [|exact Hndd' | exact Hstart''].
      unfold result_blocks. apply ndd_app_after_plain; [exact Hndd | | exact Hend].
      destruct (index <? total - 1); cbn; auto.
    + destruct (result_blocks plain total index r); [destruct Hstart'|exact Hstart'].
    + now apply ends_plain_app.
Qed.

Lemma format_results_dividers (tip query : string) (results : list Hit) :
  results <> [] ->
  no_double_divider (format_results plain tip query results).
Proof.
  intros Hne. unfold format_results.
  destruct (results_blocks_dividers (length results) results 0 Hne eq_refl)
    as (Hndd & Hstart & Hend).
  apply ndd_app_before_plain; [cbn; auto | | ].
  - apply ndd_app_after_plain; [exact Hndd | cbn; auto | exact Hend].
  - destruct (results_blocks _ _ _ _); [destruct Hstart | exact Hstart].
Qed.

End MessageFacts.

Lemma cache_plain_shape (locale_date : string -> string) :
  result_shape (CacheAppSlack.plain_blocks locale_date).
Proof.
  intros index result. unfold CacheAppSlack.plain_blocks. cbv zeta.
  eexists. eexists. split; [reflexivity|].
  destruct (0 <? length _); [right; eexists; reflexivity | now left].
Qed.

Lemma google_plain_shape (locale_date : string -> string) :
  result_shape (GoogleAppSlack.plain_blocks locale_date).
Proof.
  intros index result. unfold GoogleAppSlack.plain_blocks. cbv zeta.
  eexists. eexists. split; [reflexivity|].
  destruct (0 <? length _); [right; eexists; reflexivity | now left].
Qed.

Section ButtonFacts.
Import Slack.

Lemma indexed_urls (results : list Hit) (index : nat) :
  map button_url
      (map (fun ri => read_button (fst ri) (snd ri))
           (combine results (seq index (length results))))
  = map hit_url results.
Proof.
  revert index; induction results as [|r rest IH]; intros index; [reflexivity|].
  cbn [length seq combine map fst snd read_button button_url]. now rewrite IH.
Qed.

Lemma indexed_actions (results : list Hit) (index : nat) :
  map action_id
      (map (fun ri => read_button (fst ri) (snd ri))
           (combine results (seq index (length results))))
  = map (fun i => ("read_" ++ decimal i)%string) (seq index (length results)).
Proof.
  revert index; induction results as [|r rest IH]; intros index; [reflexivity|].
  cbn [length seq combine map fst snd read_button action_id]. now rewrite IH.
Qed.

Lemma read_ids_nodup (index count : nat) :
  NoDup (map (fun i => ("read_" ++ decimal i)%string) (seq index count)).
Proof.
  apply Finite.Injective_map_NoDup; [|apply seq_NoDup].
  intros i j H. apply decimal_inj.
  change (String "r" (String "e" (String "a" (String "d" (String "_" (decimal i)))))
          = String "r" (String "e" (String "a" (String "d" (String "_" (decimal j))))))
    in H.
  congruence.
Qed.

(** The buttons of a result message: one for each result, in order, with
    the URL of the result and an identifier of its own that the button
    handler accepts. *)
Lemma message_buttons (plain : nat -> Hit -> list Block) (tip query : string)
      (results : list Hit) :
  result_shape plain ->
  map button_url (buttons (format_results plain tip query results))
  = map hit_url results
  /\ Forall (fun b => read_action (action_id b) = true)
            (buttons (format_results plain tip query results))
  /\ NoDup (map action_id (buttons (format_results plain tip query results))).
Proof.
  intros Hshape. rewrite (format_results_buttons plain Hshape). split; [|split].
  - apply indexed_urls.
  - apply Forall_forall. intros b Hb. apply in_map_iff in Hb as [[r i] [<- _]].
    apply read_button_action.
  - rewrite indexed_actions. apply read_ids_nodup.
Qed.

End ButtonFacts.

(** X16. In a result message of either variant there is one button for
    each result, in the order of the results, with the URL of the result;
    every button identifier matches the pattern of the button handler, and
    no two buttons share an identifier. *)
Theorem result_message_buttons
        (locale_date : string -> string) (query : string) (results : list Hit) :
  let cache_buttons :=
    Slack.buttons (CacheAppSlack.formatSearchResults locale_date query results) in
  let google_buttons :=
    Slack.buttons (GoogleAppSlack.formatSearchResults locale_date query results) in
  (map Slack.button_url cache_buttons = map hit_url results
   /\ Forall (fun b => Slack.read_action (Slack.action_id b) = true) cache_buttons
   /\ NoDup (map Slack.action_id cache_buttons))
  /\ (map Slack.button_url google_buttons = map hit_url results
      /\ Forall (fun b => Slack.read_action (Slack.action_id b) = true) google_buttons
      /\ NoDup (map Slack.action_id google_buttons)).
Proof.
  split.
  - apply message_buttons, cache_plain_shape.
  - apply message_buttons, google_plain_shape.
Qed.

(** X17. A result message for at least one result, in either variant, has
    at most three blocks for each result and three more, and never two
    dividers in a row. *)
Theorem result_message_layout
        (locale_date : string -> string) (query : string) (results : list Hit) :
  results <> [] ->
  (length (CacheAppSlack.formatSearchResults locale_date query results)
   <= 3 * length results + 3
   /\ Slack.no_double_divider
        (CacheAppSlack.formatSearchResults locale_date query results))
  /\ (length (GoogleAppSlack.formatSearchResults locale_date query results)
      <= 3 * length results + 3
      /\ Slack.no_double_divider
           (GoogleAppSlack.formatSearchResults locale_date query results)).
Proof.
  intros Hne. split; split.
  - now apply format_results_length; [apply cache_plain_shape|].
  - now apply format_results_dividers; [apply cache_plain_shape|].
  - now apply format_results_length; [apply google_plain_shape|].
  - now apply format_results_dividers; [apply google_plain_shape|].
Qed.

Lemma result_message_layout_witness :
  length (CacheAppSlack.formatSearchResults (fun d => d) "hybrid"
            [Scorer.hit_of None hybrid_guide 8]) <= 3 * 1 + 3.
Proof.
  apply (result_message_layout (fun d => d) "hybrid" [Scorer.hit_of None hybrid_guide 8]).
  discriminate.
Defined.

(* ================================================================== *)
(** * The handlers *)

Section TrimFacts.
Import JsString.

Lemma trimStart_blank (s : string) : all_space s = true -> trimStart s = EmptyString.
Proof.
  induction s as [|c s IH]; [reflexivity|]. cbn [all_space trimStart].
  intros H. apply andb_true_iff in H as [-> H]. now apply IH.
Qed.

Lemma trimStart_inked (s : string) :
  all_space s = false ->
  exists (c : ascii) (rest : string),
    trimStart s = String c rest /\ is_space c = false.
Proof.
  induction s as [|c s IH]; [discriminate|]. cbn [all_space trimStart].
  destruct (is_space c) eqn:E; cbn [andb]; intros H.
  - now apply IH.
  - now exists c, s.
Qed.

Lemma trimEnd_inked (c : ascii) (rest : string) :
  is_space c = false -> truthy (trimEnd (String c rest)) = true.
Proof.
  intros H. cbn [trimEnd]. destruct (trimEnd rest); [now rewrite H | reflexivity].
Qed.

(** Trimming leaves nothing exactly of the texts that are all white space. *)
Lemma trim_blank (s : string) : truthy (trim s) = negb (all_space s).
Proof.
  unfold trim. destruct (all_space s) eqn:E.
  - now rewrite (trimStart_blank s E).
  - destruct (trimStart_inked s E) as (c & rest & -> & Hc).
    now rewrite (trimEnd_inked c rest Hc).
Qed.

End TrimFacts.

Section SearchLength.

Lemma google_search_length (cfg : Config) (wg wc : World) (query : string) (s : State)
      (results : list Hit) :
  fst (GoogleApp.searchWorklineArticles cfg wg wc query s) = Returns results ->
  length results <= 5.
Proof.
  intros H. apply google_search_value in H as [cacheResults [_ ->]].
  apply firstn_le_length.
Qed.

Lemma cache_search_length (w1 w2 : World) (query : string) (s : State)
      (results : list Hit) :
  fst (CacheApp.searchWorklineArticles w1 w2 query s) = Returns results ->
  length results <= 5.
Proof.
  unfold CacheApp.searchWorklineArticles. cbv zeta. cbn [fst].
  destruct (Scorer.score_entries None _ _ _) as [r| |]; cbn [bind];
    intros H; try discriminate.
  replace results with (firstn 5 (js_sort Scorer.by_score r)) by congruence.
  apply firstn_le_length.
Qed.

End SearchLength.

(** X18. A command whose text is empty or all white space gets the help
    message, in either variant, and starts no search: the cache and
    [lastCacheTime] stay as they are. *)
Theorem blank_command_gets_help
        (locale_date : string -> string) (cfg : Config) (wa wb : World)
        (text : string) (s : State) :
  all_space text = true ->
  CacheAppSlack.command_handler locale_date wa wb text s
  = (Returns [Slack.Ack;
              Slack.Respond
                {| Slack.resp_text := None;
                   Slack.resp_blocks := Some CacheAppSlack.help_blocks;
                   Slack.response_type := None;
                   Slack.replace_original := None |}], s)
  /\ GoogleAppSlack.command_handler locale_date cfg wa wb text s
     = (Returns [Slack.Ack;
                 Slack.Respond
                   {| Slack.resp_text := None;
                      Slack.resp_blocks := Some (GoogleAppSlack.help_blocks cfg);
                      Slack.response_type := None;
                      Slack.replace_original := None |}], s).
Proof.
  intros Hblank.
  unfold CacheAppSlack.command_handler, GoogleAppSlack.command_handler.
  rewrite trim_blank, Hblank. split; reflexivity.
Qed.

Lemma blank_command_gets_help_witness :
  snd (CacheAppSlack.command_handler (fun d => d) online online "   " one_article)
  = one_article.
Proof.
  rewrite (proj1 (blank_command_gets_help (fun d => d) no_google online online
                    "   " one_article eq_refl)).
  reflexivity.
Defined.



Section MessageSizes.
Import Slack.

Lemma format_results_sizes (plain : nat -> Hit -> list Block) (tip query : string)
      (results : list Hit) :
  result_shape plain -> results <> [] -> length results <= 5 ->
  length (format_results plain tip query results) <= 18
  /\ length (buttons (format_results plain tip query results)) <= 5.
Proof.
  intros Hshape Hne Hfive. split.
  - pose proof (format_results_length plain Hshape tip query results Hne). lia.
  - rewrite (format_results_buttons plain Hshape), length_map, length_combine, length_seq.
    lia.
Qed.

Lemma answer_sizes (plain : nat -> Hit -> list Block) (tip query : string)
      (results : list Hit) :
  result_shape plain -> length results <= 5 ->
  let blocks := if length results =? 0 then no_articles_blocks query
                else format_results plain tip query results in
  length blocks <= 18 /\ length (buttons blocks) <= 5.
Proof.
  intros Hshape Hfive. cbv zeta. destruct results as [|r rest].
  - cbn. lia.
  - cbn [length Nat.eqb]. now apply format_results_sizes.
Qed.

End MessageSizes.

(** X20. No response of the command handler, in either variant, carries
    more than 18 blocks or more than 5 buttons. *)
Theorem command_message_sizes
        (locale_date : string -> string) (cfg : Config) (wa wb : World)
        (text : string) (s : State) (events : list Slack.Event)
        (r : Slack.Response) (blocks : list Slack.Block) :
  fst (CacheAppSlack.command_handler locale_date wa wb text s) = Returns events
  \/ fst (GoogleAppSlack.command_handler locale_date cfg wa wb text s) = Returns events ->
  In (Slack.Respond r) events ->
  Slack.resp_blocks r = Some blocks ->
  length blocks <= 18 /\ length (Slack.buttons blocks) <= 5.
Proof.
  intros Hevents Hin Hblocks.
  unfold CacheAppSlack.command_handler, GoogleAppSlack.command_handler in Hevents.
  destruct (negb (JsString.truthy (JsString.trim text))).
  - assert (blocks = CacheAppSlack.help_blocks \/ blocks = GoogleAppSlack.help_blocks cfg)
      as [->| ->]; [|cbn; lia|cbn; lia].
    destruct Hevents as [H|H]; cbn [fst] in H; injection H as <-;
      destruct Hin as [Hin|[Hin|[]]]; try discriminate;
      injection Hin as <-; cbn in Hblocks; injection Hblocks as <-; auto.
  - destruct Hevents as [H|H].
    + destruct (CacheApp.searchWorklineArticles wa wb (JsString.trim text) s)
        as [[results| |] s'] eqn:E; cbn [fst] in H; try discriminate;
        injection H as <-; destruct Hin as [Hin|[Hin|[Hin|[]]]]; try discriminate;
        injection Hin as <-; cbn in Hblocks; try discriminate.
      injection Hblocks as <-.
      apply (answer_sizes _ _ _ _ (cache_plain_shape locale_date)).
      eapply cache_search_length. now rewrite E.
    + destruct (GoogleApp.searchWorklineArticles cfg wa wb (JsString.trim text) s)
        as [[results| |] s'] eqn:E; cbn [fst] in H; try discriminate;
        injection H as <-; destruct Hin as [Hin|[Hin|[Hin|[]]]]; try discriminate;
        injection Hin as <-; cbn in Hblocks; try discriminate.
      injection Hblocks as <-.
      apply (answer_sizes _ _ _ _ (google_plain_shape locale_date)).
      eapply google_search_length. now rewrite E.
Qed.

Lemma command_message_sizes_witness :
  length (CacheAppSlack.formatSearchResults (fun d => d) "hybrid"
            [Scorer.hit_of None hybrid_guide 8]) <= 18
  /\ length (Slack.buttons
               (CacheAppSlack.formatSearchResults (fun d => d) "hybrid"
                  [Scorer.hit_of None hybrid_guide 8])) <= 5.
Proof.
  eapply (command_message_sizes (fun d => d) no_google offline offline "hybrid"
            one_article).
  - left. vm_compute. reflexivity.
  - right. right. left. reflexivity.
  - vm_compute. reflexivity.
Defined.

Section DirectMessages.
Import JsString Slack GoogleAppSlack.



End DirectMessages.



(* ================================================================== *)
(** * The first variant *)

Section SimpleFacts.
Import JsString SimpleApp.

Lemma includes_app_left (x s t : string) :
  includes s t = true -> includes (x ++ s) t = true.
Proof.
  rewrite !includes_spec. intros [a [b ->]]. exists (x ++ a)%string, b.
  now rewrite append_assoc3.
Qed.

Lemma truthy_nonempty (s : string) : truthy s = true -> s <> EmptyString.
Proof. destruct s; [discriminate | discriminate]. Qed.

Lemma visit_links (articleLinks : list Link) (el : option string * string) :
  Forall article_link articleLinks -> Forall article_link (visit articleLinks el).
Proof.
  intros Hall. unfold visit. destruct (fst el) as [href|]; [|exact Hall].
  destruct (truthy href); cbn [andb]; [|exact Hall].
  destruct (truthy (trim (snd el))) eqn:Htext; cbn [andb]; [|exact Hall].
  destruct (String.eqb href Refresh.INDEX_URL); cbn [negb andb]; [exact Hall|].
  destruct (includes href "workline") eqn:Hw; [|exact Hall].
  apply Forall_app. split; [exact Hall|]. constructor; [|constructor].
  unfold article_link. cbn [link_url link_title]. split; [|split].
  - unfold startsWith. destruct (prefix "http" href) eqn:Hp; [exact Hp|].
    change ("https://www.flexos.work" ++ href)%string
      with (String "h" (String "t" (String "t" (String "p"
              ("s://www.flexos.work" ++ href)%string)))).
    rewrite !prefix_cons, prefix_nil. reflexivity.
  - destruct (startsWith href "http"); [exact Hw | now apply includes_app_left].
  - now apply truthy_nonempty.
Qed.

Lemma includes_empty (s : string) : includes s EmptyString = true.
Proof. destruct s; cbn [includes]; now rewrite prefix_nil. Qed.

Lemma filter_all {A : Type} (p : A -> bool) (l : list A) :
  (forall x, p x = true) -> filter p l = l.
Proof.
  intros Hp. induction l as [|x l IH]; [reflexivity|].
  cbn [filter]. now rewrite Hp, IH.
Qed.

End SimpleFacts.

(** X22. The first variant returns at most three links; each has an
    absolute URL that contains "workline" and a title that is not empty;
    for a query other than "latest", the lowercased title of each holds one
    of the words of the lowercased query; and when the index page cannot be
    loaded it returns none. *)
Theorem simple_find (w : World) (query : string) :
  length (SimpleApp.findWorklineArticles w query) <= 3
  /\ Forall article_link (SimpleApp.findWorklineArticles w query)
  /\ (query <> EmptyString -> query <> "latest" ->
      Forall (fun l =>
                exists term : string,
                  In term (JsString.split " " (JsString.toLowerCase query))
                  /\ JsString.includes (JsString.toLowerCase (SimpleApp.link_title l))
                                       term = true)
             (SimpleApp.findWorklineArticles w query))
  /\ (http_get w Refresh.INDEX_URL = None -> SimpleApp.findWorklineArticles w query = []).
Proof.
  unfold SimpleApp.findWorklineArticles.
  destruct (http_get w Refresh.INDEX_URL) as [doc|].
  2:{ cbn. repeat split; auto. }
  set (links := fold_left SimpleApp.visit _ []).
  assert (Forall article_link links) as Hlinks.
  { unfold links. generalize (@nil SimpleApp.Link) (Forall_nil article_link).
    induction (combine _ _) as [|el els IH]; intros acc Hacc; cbn [fold_left];
      [exact Hacc|].
    apply IH. now apply visit_links. }
  split; [|split; [|split]].
  - destruct (_ && _); apply firstn_le_length.
  - apply Forall_forall. intros l Hin. rewrite Forall_forall in Hlinks. apply Hlinks.
    destruct (_ && _); apply firstn_in in Hin; [|exact Hin].
    now apply filter_In in Hin.
  - intros Hne Hlatest.
    replace (JsString.truthy query) with true by (now destruct query).
    apply String.eqb_neq in Hlatest. rewrite Hlatest. cbn [negb andb].
    apply Forall_forall. intros l Hin. apply firstn_in, filter_In in Hin as [_ Hin].
    apply existsb_exists in Hin as [term [Hterm Hin]]. now exists term.
  - discriminate.
Qed.

Lemma simple_find_witness :
  Forall (fun l =>
            exists term : string,
              In term (JsString.split " " (JsString.toLowerCase "Change"))
              /\ JsString.includes (JsString.toLowerCase (SimpleApp.link_title l))
                                   term = true)
         (SimpleApp.findWorklineArticles online "Change").
Proof.
  apply (simple_find online "Change"); discriminate.
Defined.

(** X23. In the first variant a query with an empty word (two spaces in a
    row, or a space at either end) filters nothing: it returns what the
    query "latest" returns, the first three links of the index page. *)
Theorem simple_find_empty_word (w : World) (query : string) :
  In EmptyString (JsString.split " " (JsString.toLowerCase query)) ->
  SimpleApp.findWorklineArticles w query = SimpleApp.findWorklineArticles w "latest".
Proof.
  intros Hempty. unfold SimpleApp.findWorklineArticles.
  destruct (http_get w Refresh.INDEX_URL) as [doc|]; [|reflexivity].
  change (JsString.truthy "latest" && negb (String.eqb "latest" "latest")) with false.
  cbv iota. destruct (_ && _); [|reflexivity].
  rewrite filter_all; [reflexivity|].
  intros l. apply existsb_exists. exists EmptyString. split; [exact Hempty|].
  apply includes_empty.
Qed.

Lemma simple_find_empty_word_witness :
  SimpleApp.findWorklineArticles online "hybrid  work"
  = SimpleApp.findWorklineArticles online "latest".
Proof.
  apply (simple_find_empty_word online "hybrid  work").
  right. left. reflexivity.
Defined.

(* ================================================================== *)
(** * Refreshing twice, and the terms of a query *)

Section RefreshTwice.
Import JsString Scraper Refresh.



End RefreshTwice.


Section TermFacts.
Import JsString.

Lemma split_forall (p : ascii -> bool) (sep : ascii) (s : string) :
  string_forall p s = true ->
  Forall (fun t => string_forall p t = true) (split sep s).
Proof.
  induction s as [|c s IH]; intros H; [repeat constructor|].
  cbn [string_forall] in H. apply andb_true_iff in H as [Hc Hs].
  specialize (IH Hs). cbn [split]. destruct (Ascii.eqb c sep).
  - constructor; [reflexivity | exact IH].
  - destruct (split sep s) as [|t ts]; [repeat constructor; cbn; now rewrite Hc|].
    inversion IH as [|? ? Ht Hts]; subst. constructor; [|exact Hts].
    cbn. now rewrite Hc, Ht.
Qed.

Lemma split_no_separator (sep : ascii) (s : string) :
  Forall (fun t => string_forall (fun c => negb (Ascii.eqb c sep)) t = true)
         (split sep s).
Proof.
  induction s as [|c s IH]; [repeat constructor|].
  cbn [split]. destruct (Ascii.eqb c sep) eqn:E.
  - constructor; [reflexivity | exact IH].
  - destruct (split sep s) as [|t ts]; [repeat constructor; cbn; now rewrite E|].
    inversion IH as [|? ? Ht Hts]; subst. constructor; [|exact Hts].
    cbn. now rewrite E, Ht.
Qed.

Lemma lowered_forall (s : string) :
  string_forall (fun c => Ascii.eqb (lower_unit c) c) s = true <-> toLowerCase s = s.
Proof.
  induction s as [|c s IH]; [cbn; tauto|].
  cbn [string_forall toLowerCase]. rewrite andb_true_iff, IH, Ascii.eqb_eq.
  split; [intros [-> ->]; reflexivity | intros H; injection H as -> ->; now split].
Qed.

End TermFacts.

(** X25. Every term of a query is longer than two code units, holds no
    space, and is in lower case. *)
Theorem query_terms (query : string) :
  Forall (fun term =>
            2 < String.length term
            /\ string_forall (fun c => negb (Ascii.eqb c " ")) term = true
            /\ JsString.toLowerCase term = term)
         (Scorer.queryTerms query).
Proof.
  apply Forall_forall. intros term Hin. unfold Scorer.queryTerms in Hin.
  apply filter_In in Hin as [Hin Hlen]. split; [now apply Nat.ltb_lt|]. split.
  - pose proof (split_no_separator " " (JsString.toLowerCase query)) as H.
    rewrite Forall_forall in H. now apply H.
  - apply lowered_forall.
    assert (string_forall (fun c => Ascii.eqb (JsString.lower_unit c) c)
                          (JsString.toLowerCase query) = true) as Hq
        by (apply lowered_forall, toLowerCase_idempotent).
    pose proof (split_forall _ " " _ Hq) as H.
    rewrite Forall_forall in H. now apply H.
Qed.

(* ================================================================== *)
(** * When the network fails *)

(** X26. When the index page cannot be loaded, a search still answers
    from the cache as it is: the cache search of the Google-enabled variant
    and the cache-only search score the entries the cache holds, and leave
    the cache and [lastCacheTime] unchanged, so that the next search tries
    the refresh again. *)
Theorem search_survives_index_failure
        (w w' : World) (query : string) (s : State) :
  http_get w Refresh.INDEX_URL = None ->
  http_get w' Refresh.INDEX_URL = None ->
  GoogleApp.searchCachedArticles w query s
  = (results <- Scorer.score_entries (Some FromCache) (Scorer.queryTerms query)
                  (articleCache s) [] ;;
     Returns (js_sort Scorer.by_score results), s)
  /\ CacheApp.searchWorklineArticles w w' query s
     = (results <- Scorer.score_entries None (Scorer.queryTerms query)
                     (articleCache s) [] ;;
        Returns (firstn 5 (js_sort Scorer.by_score results)), s).
Proof.
  intros Hw Hw'.
  assert (Refresh.refreshArticleCache w s = s) as Hr
      by (unfold Refresh.refreshArticleCache; now rewrite Hw).
  assert (Refresh.refreshArticleCache w' s = s) as Hr'
      by (unfold Refresh.refreshArticleCache; now rewrite Hw').
  unfold GoogleApp.searchCachedArticles, CacheApp.searchWorklineArticles.
  rewrite Hr. split.
  - now destruct (Refresh.is_stale w s).
  - cbv zeta.
    assert ((if Refresh.is_stale w s then s else s) = s) as -> by now destruct (Refresh.is_stale w s).
    rewrite Hr'.
    now destruct (JsMap.size (articleCache s) =? 0).
Qed.

Lemma search_survives_index_failure_witness :
  snd (CacheApp.searchWorklineArticles offline offline "hybrid" initial_state)
  = initial_state.
Proof.
  rewrite (proj2 (search_survives_index_failure offline offline "hybrid" initial_state
                    eq_refl eq_refl)).
  reflexivity.
Defined.

(** X27. When Google lists a page that is not in the cache and cannot be
    fetched, the hit for it carries the title "Article" and the summary
    "Could not load summary" of the placeholder, not the title and snippet
    Google gave, and the page is not added to the cache. *)
Theorem google_hit_of_failed_scrape
        (cfg : Config) (w : World) (query : string) (s : State)
        (items : list Item) (item : Item) :
  JsString.truthy_opt (GOOGLE_API_KEY cfg) = true ->
  JsString.truthy_opt (GOOGLE_CSE_ID cfg) = true ->
  google_get w query = GoogleItems items ->
  In item (firstn 5 items) ->
  JsMap.get (articleCache s) (link item) = None ->
  http_get w (link item) = None ->
  In {| hit_url := link item;
        hit_title := "Article";
        hit_summary := "Could not load summary";
        hit_content := None;
        hit_topics := [];
        hit_publishDate := None;
        hit_scrapedAt := None;
        hit_source := Some FromGoogle;
        hit_score := 10 |}
     (fst (GoogleApp.searchWithGoogle cfg w query s))
  /\ JsMap.get (articleCache (snd (GoogleApp.searchWithGoogle cfg w query s))) (link item)
     = None.
Proof.
  intros Hkey Hcse Hitems Hin Hmiss Hfail.
  assert (Scraper.scrapeArticle w (link item) = Scraper.placeholder (link item)) as Hscrape
      by (unfold Scraper.scrapeArticle; now rewrite Hfail).
  split.
  - unfold GoogleApp.searchWithGoogle. rewrite Hkey, Hcse, Hitems. cbn [negb orb fst].
    apply in_map_iff. exists item. split; [|exact Hin].
    unfold GoogleApp.google_hit, GoogleApp.article_data. rewrite Hmiss, Hscrape.
    reflexivity.
  - unfold GoogleApp.searchWithGoogle. rewrite Hkey, Hcse, Hitems.
    cbn [negb orb snd articleCache]. rewrite google_store_get, Hmiss.
    unfold GoogleApp.storable. rewrite Hscrape. cbn [Scraper.placeholder title].
    now rewrite andb_false_r.
Qed.

Lemma google_hit_of_failed_scrape_witness :
  JsMap.get (articleCache (snd (GoogleApp.searchWithGoogle with_google dead_link
                                  "gone" one_article)))
            (link gone_item)
  = None.
Proof.
  refine (proj2 (google_hit_of_failed_scrape with_google dead_link "gone" one_article
                   [gone_item] gone_item eq_refl eq_refl eq_refl _ eq_refl eq_refl)).
  left. reflexivity.
Defined.
